(** * Primary-fuel classification of boilers and plants (pudl.analysis.egrid)

    A shallow embedding of [calculate_fuel_percentage] and
    [determine_primary_fuel] from [src/pudl/analysis/egrid.py], together
    with the pandas operations these two functions are written with.

    Numbers.  The numeric columns hold floats in the program.  Here a
    numeric cell is an exact rational ([Qc], canonical fractions, so that
    equality of cells is Leibniz equality) or NaN ([None]); rounding,
    overflow and infinities are outside the model.  For that reason the
    general properties below are about the structure of the tables and
    about comparisons of cells, which survive rounding.  The one cell
    that is stated as a sum is the plant-level pivot cell, the sum that
    [groupby(...).sum()] takes over the records of a group in their
    order; no property states a share as an exact quotient.  The
    concrete tables that are evaluated hold small integers and halves,
    which the program's floats carry exactly.

    Tables.  A pandas DataFrame is a list of column labels together with
    the rows, each row being its index entry and one cell per column.
    Assigning a column whose label already exists overwrites that column,
    as [df[name] = ...] does.  The index of the pivot is kept apart from
    the columns throughout: [reset_index] only checks that no column
    carries the name of an index level, and [set_index] undoes it.

    pandas.  The calls are modelled with the defaults the module leaves
    in force: [groupby] sorts its groups and leaves out rows with NaN in a
    key, [sum] and [mean] skip NaN, [pivot_table] aggregates with
    [aggfunc='mean'] and drops groups and columns that are NaN
    throughout, [idxmax] returns the first largest entry.

    Errors.  [UnboundLocalError] is the read of [fuel_pivot] on line 109
    when no branch has bound it; [ValueError] is raised by [reset_index]
    for a column named like an index level and by [idxmax] for a table
    that has rows but no column. *)

From Stdlib Require Import List String Ascii ZArith QArith Qcanon Bool Lia Lra Sorted.
Import ListNotations.

Local Open Scope string_scope.
Local Open Scope Qc_scope.

(* ================================================================== *)
(** * Numeric cells *)
(* ================================================================== *)

Module Num.

(** A float cell: [None] is NaN. *)
Definition cell := option Qc.

(** [a * b] on float columns: NaN on either side gives NaN. *)
Definition cell_mul (a b : cell) : cell :=
  match a, b with
  | Some x, Some y => Some (x * y)
  | _, _ => None
  end.

Definition Qc_eqb (x y : Qc) : bool := Qeq_bool x y.
Definition Qc_leb (x y : Qc) : bool := Qle_bool x y.
Definition Qc_ltb (x y : Qc) : bool := negb (Qle_bool y x).

Definition Qc_of_nat (n : nat) : Qc := Q2Qc (inject_Z (Z.of_nat n)).

Fixpoint Qc_sum (xs : list Qc) : Qc :=
  match xs with
  | [] => 0
  | x :: xs' => x + Qc_sum xs'
  end.

(** The values of a column or row that are not NaN. *)
Fixpoint dropna (xs : list cell) : list Qc :=
  match xs with
  | [] => []
  | Some x :: xs' => x :: dropna xs'
  | None :: xs' => dropna xs'
  end.

(** [sum] with [skipna=True] (the default): NaN entries are skipped and
    an all-NaN or empty selection sums to 0. *)
Definition nansum (xs : list cell) : Qc := Qc_sum (dropna xs).

(** [mean] with [skipna=True]: the mean of the entries that are not NaN,
    and NaN when there is none. *)
Definition nanmean (xs : list cell) : cell :=
  match dropna xs with
  | [] => None
  | v :: vs => Some (Qc_sum (v :: vs) / Qc_of_nat (List.length (v :: vs)))
  end.

(** [fillna(value=0)] on one cell. *)
Definition fill0 (c : cell) : Qc :=
  match c with
  | Some x => x
  | None => 0
  end.

(** A cell that is NaN or at least 0. *)
Definition nonneg (c : cell) : Prop :=
  match c with
  | Some x => 0 <= x
  | None => True
  end.

End Num.
Import Num.

(* ================================================================== *)
(** * Orders used by pandas when it sorts group keys and labels *)
(* ================================================================== *)

Module Ord.

(** Lexicographic combination of two comparisons. *)
Definition lex (c1 c2 : comparison) : comparison :=
  match c1 with
  | Eq => c2
  | Lt => Lt
  | Gt => Gt
  end.

Definition cmp_pair {A B} (ca : A -> A -> comparison) (cb : B -> B -> comparison)
    (x y : A * B) : comparison :=
  lex (ca (fst x) (fst y)) (cb (snd x) (snd y)).

Definition cmp_option {A} (ca : A -> A -> comparison) (x y : option A) : comparison :=
  match x, y with
  | None, None => Eq
  | None, Some _ => Lt
  | Some _, None => Gt
  | Some a, Some b => ca a b
  end.

Section Insertion.
Context {A : Type} (cmp : A -> A -> comparison).

(** Insert into a strictly increasing list, keeping one copy. *)
Fixpoint insert_uniq (x : A) (l : list A) : list A :=
  match l with
  | [] => [x]
  | y :: l' =>
      match cmp x y with
      | Lt => x :: y :: l'
      | Eq => y :: l'
      | Gt => y :: insert_uniq x l'
      end
  end.

(** The distinct values of [l] in increasing order. *)
Definition sort_uniq (l : list A) : list A := fold_right insert_uniq [] l.

Definition eqb_of (x y : A) : bool :=
  match cmp x y with
  | Eq => true
  | _ => false
  end.

Definition lt_of (x y : A) : Prop := cmp x y = Lt.

Definition ltb_of (x y : A) : bool :=
  match cmp x y with
  | Lt => true
  | _ => false
  end.
End Insertion.

(** A comparison that decides a strict total order. *)
Class StrictCmp {A : Type} (cmp : A -> A -> comparison) : Prop := {
  cmp_eq : forall x y, cmp x y = Eq <-> x = y;
  cmp_antisym : forall x y, cmp y x = CompOpp (cmp x y);
  cmp_trans : forall x y z, cmp x y = Lt -> cmp y z = Lt -> cmp x z = Lt
}.

End Ord.
Import Ord.

(* ================================================================== *)
(** * Tables *)
(* ================================================================== *)

Module Table.

(** The index entry of a pivoted row: [report_date], [plant_id_eia] and,
    at boiler level only, [boiler_id]. *)
Definition index_key := (Z * Z * option string)%type.

Definition cmp_key : index_key -> index_key -> comparison :=
  cmp_pair (cmp_pair Z.compare Z.compare) (cmp_option String.compare).

Definition key_eqb : index_key -> index_key -> bool := eqb_of cmp_key.

(** A DataFrame with the pivot index: column labels and rows. *)
Record frame (V : Type) := mk_frame {
  columns : list string;
  rows : list (index_key * list V)
}.
Arguments mk_frame {V} _ _.
Arguments columns {V} _.
Arguments rows {V} _.

Section Items.
Context {V : Type}.

(** The cell of a row under a label (first column with that label). *)
Fixpoint get_item (name : string) (cols : list string) (xs : list V) : option V :=
  match cols, xs with
  | c :: cs, x :: xs' => if String.eqb c name then Some x else get_item name cs xs'
  | _, _ => None
  end.

(** [row[name] = v]: overwrite the cell under an existing label, or
    append a cell for a new label. *)
Fixpoint set_item (name : string) (v : V) (cols : list string) (xs : list V) : list V :=
  match cols, xs with
  | c :: cs, x :: xs' =>
      if String.eqb c name then v :: xs' else x :: set_item name v cs xs'
  | _, _ => [v]
  end.

Definition set_label (name : string) (cols : list string) : list string :=
  if existsb (String.eqb name) cols then cols else cols ++ [name].

(** Remove the cells under a label. *)
Fixpoint drop_item (name : string) (cols : list string) (xs : list V) : list V :=
  match cols, xs with
  | c :: cs, x :: xs' =>
      if String.eqb c name then drop_item name cs xs' else x :: drop_item name cs xs'
  | _, _ => []
  end.

Definition drop_label (name : string) (cols : list string) : list string :=
  filter (fun c => negb (String.eqb c name)) cols.

(** [df[name] = f(row)], row by row. *)
Definition assign (name : string) (f : list V -> V) (fr : frame V) : frame V :=
  mk_frame (set_label name (columns fr))
           (map (fun r => (fst r, set_item name (f (snd r)) (columns fr) (snd r)))
                (rows fr)).

(** [df.drop(name, axis=1)]. *)
Definition drop_column (name : string) (fr : frame V) : frame V :=
  mk_frame (drop_label name (columns fr))
           (map (fun r => (fst r, drop_item name (columns fr) (snd r))) (rows fr)).

(** [df.drop(labels)] on the index: every row whose index entry is one
    of [labels] goes. *)
Definition drop_rows (labels : list index_key) (fr : frame V) : frame V :=
  mk_frame (columns fr)
           (filter (fun r => negb (existsb (key_eqb (fst r)) labels)) (rows fr)).

(** The row stored under an index entry. *)
Definition find_row (k : index_key) (fr : frame V) : option (list V) :=
  match find (fun r => key_eqb k (fst r)) (rows fr) with
  | Some r => Some (snd r)
  | None => None
  end.

(** The labelled cells of a row of [fr]. *)
Definition items (fr : frame V) (xs : list V) : list (string * V) :=
  combine (columns fr) xs.
End Items.

(** Cell by cell. *)
Definition map_cells {V W} (f : V -> W) (fr : frame V) : frame W :=
  mk_frame (columns fr) (map (fun r => (fst r, map f (snd r))) (rows fr)).

Definition index {V} (fr : frame V) : list index_key := map fst (rows fr).

(** The cell of a pivot at a row and column; NaN where the row or the
    column does not exist. *)
Definition cell_at (fr : frame cell) (k : index_key) (f : string) : cell :=
  match find_row k fr with
  | Some xs =>
      match get_item f (columns fr) xs with
      | Some c => c
      | None => None
      end
  | None => None
  end.

End Table.
Import Table.

(* ================================================================== *)
(** * The pandas operations the module is written with *)
(* ================================================================== *)

Module Pandas.

(** A group label: the index entry and the fuel type code. *)
Definition group_label := (index_key * string)%type.

(** A row of the long table handed to [groupby] and [pivot_table]: the
    key columns (NaN when a key is missing), the fuel type code (NaN
    when missing) and the value column. *)
Definition long_row := (option index_key * option string * cell)%type.

(** Order of [pivot_table]'s groups: index columns, then the fuel. *)
Definition cmp_label : group_label -> group_label -> comparison :=
  cmp_pair cmp_key String.compare.

(** Order of [groupby(['plant_id_eia', 'report_date', 'fuel_type_code'])]. *)
Definition by_plant (g : group_label) : Z * Z * option string * string :=
  match g with
  | (d, p, b, f) => (p, d, b, f)
  end.

Definition cmp_label_plant (g h : group_label) : comparison :=
  cmp_pair (cmp_pair (cmp_pair Z.compare Z.compare) (cmp_option String.compare))
           String.compare (by_plant g) (by_plant h).

Definition label_eqb : group_label -> group_label -> bool := eqb_of cmp_label.

Definition label_of (r : long_row) : option group_label :=
  match r with
  | (Some k, Some f, _) => Some (k, f)
  | _ => None
  end.

(** [groupby] leaves out the rows with NaN in a key column. *)
Fixpoint valid_rows (data : list long_row) : list (group_label * cell) :=
  match data with
  | [] => []
  | r :: data' =>
      match label_of r with
      | Some g => (g, snd r) :: valid_rows data'
      | None => valid_rows data'
      end
  end.

(** The values of one group, in row order. *)
Definition group_values (g : group_label) (vd : list (group_label * cell)) : list cell :=
  map snd (filter (fun r => label_eqb g (fst r)) vd).

(** [data.groupby(keys).agg(f)]: one row per distinct label, sorted. *)
Definition groupby_agg (cmp : group_label -> group_label -> comparison)
    (agg : list cell -> cell) (data : list long_row) : list (group_label * cell) :=
  let vd := valid_rows data in
  map (fun g => (g, agg (group_values g vd))) (sort_uniq cmp (map fst vd)).

(** [groupby(keys).sum()]: NaN is skipped, an all-NaN group sums to 0. *)
Definition agg_sum (vs : list cell) : cell := Some (nansum vs).

(** [.reset_index()] of a grouped result: labels become columns again. *)
Definition ungroup (agged : list (group_label * cell)) : list long_row :=
  map (fun r => (Some (fst (fst r)), Some (snd (fst r)), snd r)) agged.

(** [agged.dropna(how="all")] with the single value column. *)
Definition dropna_rows (agged : list (group_label * cell)) : list (group_label * cell) :=
  filter (fun r => match snd r with Some _ => true | None => false end) agged.

Definition lookup_label (g : group_label) (agged : list (group_label * cell)) : cell :=
  match find (fun r => label_eqb g (fst r)) agged with
  | Some r => snd r
  | None => None
  end.

(** [agged.unstack(fuel)]: one row per index entry, one column per fuel
    type code, both sorted; NaN where a combination has no group. *)
Definition unstack (agged : list (group_label * cell)) : frame cell :=
  let cols := sort_uniq String.compare (map (fun r => snd (fst r)) agged) in
  mk_frame cols
    (map (fun k => (k, map (fun f => lookup_label (k, f) agged) cols))
         (sort_uniq cmp_key (map (fun r => fst (fst r)) agged))).

(** [data.pivot_table(index=..., columns='fuel_type_code', values=...)]
    with its defaults [aggfunc='mean'] and [dropna=True]: group by index
    and fuel, take the mean of every group, leave out the groups whose
    mean is NaN, unstack the fuel.  The closing
    [dropna(how="all", axis=1)] and [sort_index(axis=1)] of pandas find
    nothing to do: every column comes from a group with a mean, and
    [unstack] has sorted them. *)
Definition pivot_table (data : list long_row) : frame cell :=
  unstack (dropna_rows (groupby_agg cmp_label nanmean data)).

(** [df.where(df >= thresh)] on one cell. *)
Definition where_ge (thresh x : Qc) : cell :=
  if Qc_leb thresh x then Some x else None.

(** [idxmax] along a row: the label of the first largest cell that is
    not NaN, together with that cell; nothing for an all-NaN row. *)
Fixpoint idxmax_items (its : list (string * cell)) : option (string * Qc) :=
  match its with
  | [] => None
  | (c, None) :: its' => idxmax_items its'
  | (c, Some v) :: its' =>
      match idxmax_items its' with
      | None => Some (c, v)
      | Some (c', v') => if Qc_ltb v v' then Some (c', v') else Some (c, v)
      end
  end.

Definition idxmax (cols : list string) (xs : list cell) : option string :=
  option_map fst (idxmax_items (combine cols xs)).

End Pandas.
Import Pandas.

(* ================================================================== *)
(** * pudl.analysis.egrid *)
(* ================================================================== *)

Module Egrid.

(** A row of [boiler_fuel_eia923]; [None] is a missing entry. *)
Record bf_record := mk_bf {
  plant_id_eia : option Z;
  boiler_id : option string;
  fuel_type_code : option string;
  report_date : option Z;
  fuel_consumed_units : cell;
  fuel_mmbtu_per_unit : cell
}.

(** The caller's DataFrame [bf_df]: the rows over the six documented
    columns, and whatever further float columns the object carries. *)
Record bf_frame := mk_bf_frame {
  bf_rows : list bf_record;
  bf_extra : list (string * list cell)
}.

Definition base_columns : list string :=
  ["plant_id_eia"; "boiler_id"; "fuel_type_code"; "report_date";
   "fuel_consumed_units"; "fuel_mmbtu_per_unit"].

Definition bf_columns (bf_df : bf_frame) : list string :=
  base_columns ++ map fst (bf_extra bf_df).

(** [bf_df[name] = col] on the further columns. *)
Fixpoint set_column (name : string) (col : list cell)
    (extra : list (string * list cell)) : list (string * list cell) :=
  match extra with
  | [] => [(name, col)]
  | (n, c) :: extra' =>
      if String.eqb n name then (n, col) :: extra'
      else (n, c) :: set_column name col extra'
  end.

(** [bf_df[name]] on the further columns. *)
Fixpoint get_column (name : string) (extra : list (string * list cell))
    : option (list cell) :=
  match extra with
  | [] => None
  | (n, c) :: extra' => if String.eqb n name then Some c else get_column name extra'
  end.

Inductive exn := UnboundLocalError | ValueError.

Inductive result (A : Type) :=
| Ok (a : A)
| Raise (e : exn).
Arguments Ok {A} _.
Arguments Raise {A} _.

(** [fuel_consumed_units * fuel_mmbtu_per_unit] of one row. *)
Definition mmbtu (r : bf_record) : cell :=
  cell_mul (fuel_consumed_units r) (fuel_mmbtu_per_unit r).

Definition boiler_key (r : bf_record) : option index_key :=
  match report_date r, plant_id_eia r, boiler_id r with
  | Some d, Some p, Some b => Some (d, p, Some b)
  | _, _, _ => None
  end.

Definition plant_key (r : bf_record) : option index_key :=
  match report_date r, plant_id_eia r with
  | Some d, Some p => Some (d, p, None)
  | _, _ => None
  end.

(** Selecting the key columns of a level, the fuel type code and the
    heat column. *)
Definition select_columns (key_of : bf_record -> option index_key)
    (rs : list bf_record) (col : list cell) : list long_row :=
  map (fun rc => (key_of (fst rc), fuel_type_code (fst rc), snd rc)) (combine rs col).

(** [bf_df[['report_date', 'plant_id_eia', 'boiler_id', 'fuel_type_code',
    'fuel_consumed_mmbtu']]]. *)
Definition select_boiler : list bf_record -> list cell -> list long_row :=
  select_columns boiler_key.

(** [bf_df[['report_date', 'plant_id_eia', 'fuel_type_code',
    'fuel_consumed_mmbtu']]]. *)
Definition select_plant : list bf_record -> list cell -> list long_row :=
  select_columns plant_key.

(** Lines 75-106: the pivot of the level, or nothing when [level] is
    neither ['boiler'] nor ['plant'] and [fuel_pivot] stays unbound. *)
Definition fuel_pivot_of (level : string) (rs : list bf_record) (col : list cell)
    : option (frame cell) :=
  if String.eqb level "boiler" then
    Some (pivot_table (select_boiler rs col))
  else if String.eqb level "plant" then
    let bf_gb := ungroup (groupby_agg cmp_label_plant agg_sum (select_plant rs col)) in
    Some (pivot_table bf_gb)
  else None.

(** The names of the pivot's index levels. *)
Definition index_names (level : string) : list string :=
  if String.eqb level "boiler" then ["report_date"; "plant_id_eia"; "boiler_id"]
  else ["report_date"; "plant_id_eia"].

(** The index entries of the rows whose cell under [name] is 0. *)
Definition zero_index (name : string) (fr : frame Qc) : list index_key :=
  index (mk_frame (columns fr)
           (filter (fun r => match get_item name (columns fr) (snd r) with
                             | Some t => Qc_eqb t 0
                             | None => false
                             end) (rows fr))).

(** [df.divide(df[name], axis='index')]. *)
Definition divide_by (name : string) (fr : frame Qc) : frame Qc :=
  mk_frame (columns fr)
    (map (fun r => (fst r,
                    match get_item name (columns fr) (snd r) with
                    | Some t => map (fun x => x / t) (snd r)
                    | None => snd r
                    end)) (rows fr)).

(** [reset_index()]: the index levels become columns, which pandas
    refuses when a column of that name is already there. *)
Definition reset_index (names : list string) (fr : frame Qc) : result (frame Qc) :=
  if existsb (fun c => existsb (String.eqb c) names) (columns fr)
  then Raise ValueError
  else Ok fr.

(** Lines 108-127. *)
Definition shares_of_pivot (level : string) (fuel_pivot : frame cell) : result (frame Qc) :=
  let fuel_pivot1 := assign "total" (fun xs => Some (nansum xs)) fuel_pivot in
  let fuel_pivot2 := map_cells fill0 fuel_pivot1 in
  let fuel_pivot3 := drop_rows (zero_index "total" fuel_pivot2) fuel_pivot2 in
  let fuel_pivot4 := divide_by "total" fuel_pivot3 in
  let fuel_pivot5 := drop_column "total" fuel_pivot4 in
  reset_index (index_names level) fuel_pivot5.

(** [calculate_fuel_percentage(bf_df, level)].  The first component is
    the caller's [bf_df] object as the call leaves it, the second what
    the call returns or raises. *)
Definition calculate_fuel_percentage (bf_df : bf_frame) (level : string)
    : bf_frame * result (frame Qc) :=
  let col := map mmbtu (bf_rows bf_df) in
  let bf_df1 := mk_bf_frame (bf_rows bf_df)
                  (set_column "fuel_consumed_mmbtu" col (bf_extra bf_df)) in
  (bf_df1,
   match fuel_pivot_of level (bf_rows bf_df1) col with
   | None => Raise UnboundLocalError
   | Some fuel_pivot => shares_of_pivot level fuel_pivot
   end).

(** A row of the classifier's output. *)
Record primary_fuel_row := mk_pf {
  pf_plant_id_eia : Z;
  pf_boiler_id : option string;
  pf_report_date : Z;
  primary_fuel : string
}.

Definition label_or_unknown (l : option string) : string :=
  match l with
  | Some c => c
  | None => "unknown"
  end.

(** Lines 47-52 and 54 row by row, on the share table with its index set
    back: the mask, [idxmax] along the row, ["unknown"] for NaN. *)
Definition primary_fuels (fuel_thresh : Qc) (pf_by_heat : frame Qc) : list primary_fuel_row :=
  let masked := map_cells (where_ge fuel_thresh) pf_by_heat in
  map (fun r =>
         match fst r with
         | (d, p, b) =>
             mk_pf p b d (label_or_unknown (idxmax (columns masked) (snd r)))
         end) (rows masked).

(** Lines 47-54.  [idxmax(axis=1)] takes an arg-max along each row,
    which numpy refuses for a row without cells: a table with rows and no
    column raises, a table without rows passes and gives no row. *)
Definition classify (fuel_thresh : Qc) (pf_by_heat : frame Qc)
    : result (list primary_fuel_row) :=
  match columns pf_by_heat, rows pf_by_heat with
  | [], _ :: _ => Raise ValueError
  | _, _ => Ok (primary_fuels fuel_thresh pf_by_heat)
  end.

(** [determine_primary_fuel(bf_df, fuel_thresh, level)]. *)
Definition determine_primary_fuel (bf_df : bf_frame) (fuel_thresh : Qc) (level : string)
    : bf_frame * result (list primary_fuel_row) :=
  match calculate_fuel_percentage bf_df level with
  | (bf_df1, Ok pf_by_heat) => (bf_df1, classify fuel_thresh pf_by_heat)
  | (bf_df1, Raise e) => (bf_df1, Raise e)
  end.

End Egrid.
Import Egrid.

(* ================================================================== *)
(** * Notions used to state the properties *)
(* ================================================================== *)

Module Props.

(** The mean of the values of the group [(k, f)]. *)
Definition mean_cell (vd : list (group_label * cell)) (k : index_key) (f : string) : cell :=
  nanmean (group_values (k, f) vd).

(** The record belongs to the entity-period [k] and carries fuel [f]. *)
Definition in_group (key_of : bf_record -> option index_key)
    (k : index_key) (f : string) (r : bf_record) : bool :=
  match key_of r, fuel_type_code r with
  | Some k', Some f' => key_eqb k k' && String.eqb f f'
  | _, _ => false
  end.

(** The heat values of the records of [(k, f)], in row order. *)
Definition group_heat (key_of : bf_record -> option index_key)
    (rs : list bf_record) (k : index_key) (f : string) : list cell :=
  map mmbtu (filter (in_group key_of k f) rs).

(** The record is a fuel record of the entity-period [k]. *)
Definition in_entity (key_of : bf_record -> option index_key)
    (k : index_key) (r : bf_record) : bool :=
  match key_of r, fuel_type_code r with
  | Some k', Some _ => key_eqb k k'
  | _, _ => false
  end.

(** Total heat content of an entity-period: the sum of
    [fuel_consumed_units * fuel_mmbtu_per_unit] over its fuel records
    (a product that is NaN contributes nothing). *)
Definition total_heat (key_of : bf_record -> option index_key)
    (rs : list bf_record) (k : index_key) : Qc :=
  nansum (map mmbtu (filter (in_entity key_of k) rs)).

(** The key columns of a level. *)
Definition key_of_level (level : string) : bf_record -> option index_key :=
  if String.eqb level "boiler" then boiler_key else plant_key.

(** The group labels of the records that have all their keys. *)
Fixpoint labels_of (key_of : bf_record -> option index_key)
    (rs : list bf_record) : list group_label :=
  match rs with
  | [] => []
  | r :: rs' =>
      match key_of r, fuel_type_code r with
      | Some k, Some f => (k, f) :: labels_of key_of rs'
      | _, _ => labels_of key_of rs'
      end
  end.

(** The pivot that [calculate_fuel_percentage] builds from [bf_df]
    (lines 72-106), if the level binds one. *)
Definition fuel_pivot (bf_df : bf_frame) (level : string) : option (frame cell) :=
  fuel_pivot_of level (bf_rows bf_df) (map mmbtu (bf_rows bf_df)).

(** The cell of the pivot of a level at [(k, f)]: at boiler level the
    mean of the heat of the records of the group, at plant level their
    sum. *)
Definition level_cell (level : string) (rs : list bf_record) (k : index_key) (f : string)
    : cell :=
  if String.eqb level "boiler"
  then nanmean (group_heat boiler_key rs k f)
  else if existsb (in_group plant_key k f) rs
       then Some (nansum (group_heat plant_key rs k f))
       else None.

(** Reading a result: the columns and the rows, cells as fractions. *)
Definition view (res : result (frame Qc))
    : option (list string * list (index_key * list Q)) :=
  match res with
  | Ok fr => Some (columns fr, map (fun r => (fst r, map this (snd r))) (rows fr))
  | Raise _ => None
  end.

Definition view_cell (c : cell) : option Q := option_map this c.

(** The table of a result (empty for a raised error). *)
Definition table_of {A} (res : result (frame A)) : frame A :=
  match res with
  | Ok fr => fr
  | Raise _ => mk_frame [] []
  end.


(** The reported fuel comes first, in the order of the fuel type codes,
    among the fuels tied at the largest share that reaches the
    threshold. *)
Definition first_of_tied (fuel_thresh : Qc) (its : list (string * Qc)) (pf : string) : Prop :=
  forall c y,
    In (c, y) its -> fuel_thresh <= y ->
    (forall c' y', In (c', y') its -> fuel_thresh <= y' -> y' <= y) ->
    In (pf, y) its /\ String.leb pf c = true.

(** The entity-period of a classified row. *)
Definition pf_key (o : primary_fuel_row) : index_key :=
  (pf_report_date o, pf_plant_id_eia o, pf_boiler_id o).

(** Every row has one cell per column. *)
Definition well_formed {V} (fr : frame V) : Prop :=
  forall r, In r (rows fr) -> List.length (snd r) = List.length (columns fr).

(** The shares of a pivot row: the cells under the fuel columns other
    than ['total'], NaN read as 0, over the sum of the row. *)
Definition share_row (cs : list string) (xs : list cell) : list Qc :=
  map (fun x => fill0 x / nansum xs) (drop_item "total" cs xs).

(** The index entries of the pivot rows that sum to 0. *)
Definition zero_rows (fuel_pivot : frame cell) : list index_key :=
  map fst (filter (fun r => Qc_eqb (nansum (snd r)) 0) (rows fuel_pivot)).

(** The pivot rows that are not dropped. *)
Definition kept_rows (fuel_pivot : frame cell) : list (index_key * list cell) :=
  filter (fun r => negb (existsb (key_eqb (fst r)) (zero_rows fuel_pivot)))
         (rows fuel_pivot).

(** The steps of lines 108-123 on one row, over the pivot's columns [cs]:
    the row with its total and NaN filled ... *)
Definition with_total (cs : list string) (r : index_key * list cell)
    : index_key * list Qc :=
  (fst r, map fill0 (set_item "total" (Some (nansum (snd r))) cs (snd r))).

(** ... the test for a total of 0 ... *)
Definition is_zero (cs : list string) (r : index_key * list Qc) : bool :=
  match get_item "total" (set_label "total" cs) (snd r) with
  | Some t => Qc_eqb t 0
  | None => false
  end.

(** ... the division by the total ... *)
Definition divided (cs : list string) (r : index_key * list Qc) : index_key * list Qc :=
  (fst r,
   match get_item "total" (set_label "total" cs) (snd r) with
   | Some t => map (fun x => x / t) (snd r)
   | None => snd r
   end).

(** ... and the row without its total. *)
Definition dropped (cs : list string) (r : index_key * list Qc) : index_key * list Qc :=
  (fst r, drop_item "total" (set_label "total" cs) (snd r)).

(** The share table before [reset_index]. *)
Definition share_frame (fuel_pivot : frame cell) : frame Qc :=
  mk_frame (drop_label "total" (columns fuel_pivot))
           (map (fun r => (fst r, share_row (columns fuel_pivot) (snd r)))
                (kept_rows fuel_pivot)).

(** A labelled share behind the mask of a threshold. *)
Definition mask_item (fuel_thresh : Qc) (it : string * Qc) : string * cell :=
  (fst it, where_ge fuel_thresh (snd it)).

(** A cell that is NaN or 0. *)
Definition no_heat (c : cell) : Prop := c = None \/ c = Some 0.



(** The record has the keys of the level and a fuel type code. *)
Definition has_keys (key_of : bf_record -> option index_key) (r : bf_record) : bool :=
  match key_of r, fuel_type_code r with
  | Some _, Some _ => true
  | _, _ => false
  end.

(** Two records that agree on everything but the boiler. *)
Definition same_but_boiler (r r' : bf_record) : Prop :=
  report_date r = report_date r'
  /\ plant_id_eia r = plant_id_eia r'
  /\ fuel_type_code r = fuel_type_code r'
  /\ fuel_consumed_units r = fuel_consumed_units r'
  /\ fuel_mmbtu_per_unit r = fuel_mmbtu_per_unit r'.

End Props.
Import Props.

(* ================================================================== *)
(** * Sample tables *)
(* ================================================================== *)

Module Samples.

Definition num (n : Z) : cell := Some (Q2Qc (inject_Z n)).

(** A complete record. *)
Definition rec (plant : Z) (boiler : string) (fuel : string) (date : Z)
    (units per_unit : Z) : bf_record :=
  mk_bf (Some plant) (Some boiler) (Some fuel) (Some date) (num units) (num per_unit).

Definition table (rs : list bf_record) : bf_frame := mk_bf_frame rs [].

(** One plant, one month: coal 100 units, gas 0 units, 1 MMBTU each. *)
Definition coal_and_idle_gas : bf_frame :=
  table [rec 1 "B1" "COAL" 1 100 1; rec 1 "B1" "GAS" 1 0 1].

(** The heat per unit of the gas record is missing. *)
Definition missing_heat : bf_frame :=
  table [rec 1 "B1" "COAL" 1 100 1;
         mk_bf (Some 1%Z) (Some "B1") (Some "GAS") (Some 1%Z) (num 5) None].

(** Coal 3 units, gas -1 unit. *)
Definition negative_units : bf_frame :=
  table [rec 1 "B1" "COAL" 1 3 1; rec 1 "B1" "GAS" 1 (-1) 1].

(** Two coal records of one boiler and month (1 and 3 MMBTU), one gas
    record (2 MMBTU). *)
Definition duplicate_coal : bf_frame :=
  table [rec 1 "B1" "COAL" 1 1 1; rec 1 "B1" "COAL" 1 3 1; rec 1 "B1" "GAS" 1 2 1].

(** Two coal records of 1 MMBTU and a gas record of -2 MMBTU: the heat
    of the boiler and month adds up to 0. *)
Definition cancelling : bf_frame :=
  table [rec 1 "B1" "COAL" 1 1 1; rec 1 "B1" "COAL" 1 1 1; rec 1 "B1" "GAS" 1 (-2) 1].

(** A fuel type code that reads ["total"]. *)
Definition fuel_named_total : bf_frame :=
  table [rec 1 "B1" "COAL" 1 1 1; rec 1 "B1" "total" 1 1 1].


(** Two boilers of one plant burning coal, one of them gas as well. *)
Definition two_boilers : bf_frame :=
  table [rec 1 "B1" "COAL" 1 10 2; rec 1 "B2" "COAL" 1 5 2; rec 1 "B2" "GAS" 1 30 1].

(** Nothing burnt. *)
Definition idle_plant : bf_frame :=
  table [rec 1 "B1" "COAL" 1 0 1; rec 2 "B1" "COAL" 1 4 1].

(** The only fuel type code reads ["total"]. *)
Definition only_total : bf_frame :=
  table [rec 1 "B1" "total" 1 1 1].

(** A fuel type code that reads like a key column. *)
Definition fuel_named_report_date : bf_frame :=
  table [rec 1 "B1" "COAL" 1 1 1; rec 1 "B1" "report_date" 1 1 1].

(** Gas and coal tied at one half each. *)
Definition tied : bf_frame :=
  table [rec 1 "B1" "GAS" 1 5 1; rec 1 "B1" "COAL" 1 5 1].

End Samples.
Import Samples.

(* ================================================================== *)
(** * Facts about the orders *)
(* ================================================================== *)

#[global] Instance Z_StrictCmp : StrictCmp Z.compare.
Proof.
  split.
  - apply Z.compare_eq_iff.
  - intros x y. apply Z.compare_antisym.
  - intros x y z. rewrite !Z.compare_lt_iff. lia.
Qed.

#[global] Instance ascii_StrictCmp : StrictCmp Ascii.compare.
Proof.
  split.
  - intros x y. split.
    + apply Ascii.compare_eq_iff.
    + intros ->. unfold Ascii.compare. apply N.compare_refl.
  - intros x y. apply Ascii.compare_antisym.
  - intros x y z. unfold Ascii.compare. rewrite !N.compare_lt_iff. lia.
Qed.

#[global] Instance string_StrictCmp : StrictCmp String.compare.
Proof.
  pose proof (cmp_eq (cmp := Ascii.compare)) as Aeq.
  pose proof (cmp_trans (cmp := Ascii.compare)) as Atr.
  split.
  - intros x y. split; [apply String.compare_eq_iff|].
    intros <-. induction x as [|a x IH]; simpl; [reflexivity|].
    rewrite (proj2 (Aeq a a) eq_refl). assumption.
  - intros x y. apply String.compare_antisym.
  - intros x. induction x as [|a x IH]; intros [|b y] [|c z]; simpl; try congruence.
    destruct (Ascii.compare a b) eqn:Hab; destruct (Ascii.compare b c) eqn:Hbc;
      try congruence.
    + apply Aeq in Hab. apply Aeq in Hbc. subst.
      rewrite (proj2 (Aeq c c) eq_refl). apply IH.
    + apply Aeq in Hab. subst. rewrite Hbc. reflexivity.
    + apply Aeq in Hbc. subst. rewrite Hab. reflexivity.
    + rewrite (Atr _ _ _ Hab Hbc). reflexivity.
Qed.

#[global] Instance option_StrictCmp {A} (ca : A -> A -> comparison)
    `{!StrictCmp ca} : StrictCmp (cmp_option ca).
Proof.
  pose proof (cmp_eq (cmp := ca)) as Aeq.
  pose proof (cmp_antisym (cmp := ca)) as Aas.
  pose proof (cmp_trans (cmp := ca)) as Atr.
  split.
  - intros [x|] [y|]; simpl; try (split; congruence).
    rewrite Aeq. split; congruence.
  - intros [x|] [y|]; simpl; auto.
  - intros [x|] [y|] [z|]; simpl; try congruence. apply Atr.
Qed.

#[global] Instance pair_StrictCmp {A B} (ca : A -> A -> comparison)
    (cb : B -> B -> comparison) `{!StrictCmp ca} `{!StrictCmp cb} :
  StrictCmp (cmp_pair ca cb).
Proof.
  pose proof (cmp_eq (cmp := ca)) as Aeq.
  pose proof (cmp_antisym (cmp := ca)) as Aas.
  pose proof (cmp_trans (cmp := ca)) as Atr.
  pose proof (cmp_eq (cmp := cb)) as Beq.
  pose proof (cmp_antisym (cmp := cb)) as Bas.
  pose proof (cmp_trans (cmp := cb)) as Btr.
  split.
  - intros [a b] [a' b']. unfold cmp_pair, lex. simpl.
    destruct (ca a a') eqn:Ha.
    + apply Aeq in Ha. subst. rewrite Beq. split; congruence.
    + split; [discriminate|]. intros H. inversion H; subst.
      rewrite (proj2 (Aeq a' a') eq_refl) in Ha. discriminate.
    + split; [discriminate|]. intros H. inversion H; subst.
      rewrite (proj2 (Aeq a' a') eq_refl) in Ha. discriminate.
  - intros [a b] [a' b']. unfold cmp_pair, lex. simpl.
    rewrite (Aas a a'). destruct (ca a a'); simpl; auto.
  - intros [a b] [a' b'] [a'' b'']. unfold cmp_pair, lex. simpl.
    destruct (ca a a') eqn:H1; destruct (ca a' a'') eqn:H2; try congruence.
    + apply Aeq in H1. apply Aeq in H2. subst.
      rewrite (proj2 (Aeq a'' a'') eq_refl). apply Btr.
    + apply Aeq in H1. subst. rewrite H2. reflexivity.
    + apply Aeq in H2. subst. rewrite H1. reflexivity.
    + rewrite (Atr _ _ _ H1 H2). reflexivity.
Qed.

Lemma premap_StrictCmp {A B} (g : A -> B) (cb : B -> B -> comparison)
    `{!StrictCmp cb} :
  (forall x y, g x = g y -> x = y) ->
  StrictCmp (fun x y => cb (g x) (g y)).
Proof.
  intros Hinj. split.
  - intros x y. rewrite (cmp_eq (cmp := cb)). split; [apply Hinj | congruence].
  - intros x y. apply (cmp_antisym (cmp := cb)).
  - intros x y z. apply (cmp_trans (cmp := cb)).
Qed.

#[global] Instance key_StrictCmp : StrictCmp cmp_key.
Proof. unfold cmp_key. typeclasses eauto. Qed.

#[global] Instance label_StrictCmp : StrictCmp cmp_label.
Proof. unfold cmp_label. typeclasses eauto. Qed.

#[global] Instance label_plant_StrictCmp : StrictCmp cmp_label_plant.
Proof.
  unfold cmp_label_plant.
  apply (premap_StrictCmp by_plant _).
  intros [[[d p] b] f] [[[d' p'] b'] f']. simpl. congruence.
Qed.

Section OrderFacts.

Context {A : Type} (cmp : A -> A -> comparison) `{!StrictCmp cmp}.

Lemma cmp_refl x : cmp x x = Eq.
Proof. apply cmp_eq. reflexivity. Qed.

Lemma eqb_of_true x y : eqb_of cmp x y = true <-> x = y.
Proof.
  unfold eqb_of. rewrite <- cmp_eq. destruct (cmp x y); split; congruence.
Qed.

Lemma eqb_of_refl x : eqb_of cmp x x = true.
Proof. apply eqb_of_true. reflexivity. Qed.

Lemma eqb_of_false x y : eqb_of cmp x y = false <-> x <> y.
Proof.
  rewrite <- eqb_of_true. destruct (eqb_of cmp x y); split; congruence.
Qed.

Lemma insert_uniq_In x l z : In z (insert_uniq cmp x l) <-> z = x \/ In z l.
Proof.
  induction l as [|y l IH]; simpl.
  - intuition.
  - destruct (cmp x y) eqn:Hxy; simpl.
    + apply cmp_eq in Hxy. subst. intuition.
    + intuition.
    + rewrite IH. intuition.
Qed.

Lemma sort_uniq_In l z : In z (sort_uniq cmp l) <-> In z l.
Proof.
  induction l as [|y l IH]; simpl.
  - reflexivity.
  - rewrite insert_uniq_In, IH. intuition.
Qed.

Lemma insert_uniq_sorted x l :
  StronglySorted (lt_of cmp) l -> StronglySorted (lt_of cmp) (insert_uniq cmp x l).
Proof.
  induction 1 as [|y l Hs IH Hy]; simpl.
  - repeat constructor.
  - destruct (cmp x y) eqn:Hxy.
    + constructor; assumption.
    + constructor; [constructor; assumption|].
      constructor; [assumption|].
      rewrite Forall_forall in *. intros z Hz.
      apply (cmp_trans x y z Hxy). apply Hy. assumption.
    + constructor; [assumption|].
      rewrite Forall_forall in *. intros z Hz.
      apply insert_uniq_In in Hz. destruct Hz as [->|Hz]; [|auto].
      unfold lt_of. rewrite (cmp_antisym x y), Hxy. reflexivity.
Qed.

Lemma sort_uniq_sorted l : StronglySorted (lt_of cmp) (sort_uniq cmp l).
Proof.
  induction l; simpl; [constructor | apply insert_uniq_sorted; assumption].
Qed.

Lemma sorted_NoDup l : StronglySorted (lt_of cmp) l -> NoDup l.
Proof.
  induction 1 as [|y l Hs IH Hy]; constructor; [|assumption].
  intros Hin. rewrite Forall_forall in Hy. specialize (Hy y Hin).
  unfold lt_of in Hy. rewrite cmp_refl in Hy. discriminate.
Qed.

Lemma sort_uniq_NoDup l : NoDup (sort_uniq cmp l).
Proof. apply sorted_NoDup, sort_uniq_sorted. Qed.

End OrderFacts.

(* ================================================================== *)
(** * Facts about numeric cells *)
(* ================================================================== *)

Section NumFacts.

Lemma Qc_eqb_true x y : Qc_eqb x y = true <-> x = y.
Proof.
  unfold Qc_eqb. rewrite Qeq_bool_iff. split.
  - apply Qc_is_canon.
  - intros ->. reflexivity.
Qed.

Lemma Qc_leb_true x y : Qc_leb x y = true <-> x <= y.
Proof. unfold Qc_leb, Qcle. apply Qle_bool_iff. Qed.

Lemma Qc_ltb_true x y : Qc_ltb x y = true <-> x < y.
Proof.
  unfold Qc_ltb. rewrite negb_true_iff, <- not_true_iff_false, Qle_bool_iff.
  split.
  - apply Qcnot_le_lt.
  - apply Qclt_not_le.
Qed.

Lemma Qc_ltb_false x y : Qc_ltb x y = false <-> y <= x.
Proof.
  unfold Qc_ltb. rewrite negb_false_iff, Qle_bool_iff. reflexivity.
Qed.

Lemma Qc_div_self t : t <> 0 -> t / t = 1.
Proof. intros Ht. unfold Qcdiv. apply Qcmult_inv_r. assumption. Qed.

Lemma Qc_div_1 x : x / Qc_of_nat 1 = x.
Proof.
  assert (H1 : Qc_of_nat 1 = 1) by (apply Qc_is_canon; reflexivity).
  rewrite H1. unfold Qcdiv.
  assert (H2 : / 1 = 1) by (apply Qc_is_canon; reflexivity).
  rewrite H2. ring.
Qed.

Lemma Qc_sum_app xs ys : Qc_sum (xs ++ ys) = Qc_sum xs + Qc_sum ys.
Proof. induction xs as [|x xs IH]; simpl; [ring | rewrite IH; ring]. Qed.

Lemma Qc_sum_map_div t xs : Qc_sum (map (fun x => x / t) xs) = Qc_sum xs / t.
Proof.
  induction xs as [|x xs IH]; simpl.
  - unfold Qcdiv. ring.
  - rewrite IH. unfold Qcdiv. ring.
Qed.

Lemma Qc_sum_fill0 xs : Qc_sum (map fill0 xs) = nansum xs.
Proof.
  unfold nansum. induction xs as [|[x|] xs IH]; simpl.
  - reflexivity.
  - rewrite IH. reflexivity.
  - rewrite IH. ring.
Qed.

Lemma nansum_cons c xs : nansum (c :: xs) = fill0 c + nansum xs.
Proof. unfold nansum. destruct c; simpl; ring. Qed.

Lemma nansum_app xs ys : nansum (xs ++ ys) = nansum xs + nansum ys.
Proof.
  induction xs as [|c xs IH]; simpl.
  - unfold nansum at 2. simpl. ring.
  - rewrite !nansum_cons, IH. ring.
Qed.

Lemma nanmean_nil : nanmean [] = None.
Proof. reflexivity. Qed.

Lemma nanmean_single c : nanmean [c] = c.
Proof.
  destruct c as [x|]; [|reflexivity].
  unfold nanmean. simpl. rewrite Qc_div_1. f_equal. ring.
Qed.

Lemma nanmean_None xs : nanmean xs = None <-> dropna xs = [].
Proof. unfold nanmean. destruct (dropna xs); split; congruence. Qed.

Lemma dropna_nil xs : dropna xs = [] <-> forall c, In c xs -> c = None.
Proof.
  induction xs as [|[x|] xs IH]; simpl.
  - intuition.
  - split; [discriminate|]. intros H. specialize (H (Some x) (or_introl eq_refl)).
    discriminate.
  - rewrite IH. split.
    + intros H c [<-|Hc]; auto.
    + intros H c Hc. apply H. right. assumption.
Qed.

Lemma dropna_In x xs : In x (dropna xs) <-> In (Some x) xs.
Proof.
  induction xs as [|[y|] xs IH]; simpl.
  - reflexivity.
  - rewrite IH. split; intros [H|H]; auto; left; congruence.
  - rewrite IH. split; [auto|]. intros [H|H]; [discriminate|assumption].
Qed.

(** ** Sign and size *)

Lemma Qc_sum_nonneg xs : (forall x, In x xs -> 0 <= x) -> 0 <= Qc_sum xs.
Proof.
  induction xs as [|x xs IH]; simpl; intros H.
  - apply Qcle_refl.
  - assert (H0 : 0 <= x) by auto. assert (H1 : 0 <= Qc_sum xs) by auto.
    replace 0 with (0 + 0) by ring. apply Qcplus_le_compat; assumption.
Qed.

Lemma Qc_sum_ge x xs :
  (forall y, In y xs -> 0 <= y) -> In x xs -> x <= Qc_sum xs.
Proof.
  induction xs as [|y xs IH]; simpl; intros H Hin; [contradiction|].
  destruct Hin as [->|Hin].
  - replace x with (x + 0) at 1 by ring.
    apply Qcplus_le_compat; [apply Qcle_refl|].
    apply Qc_sum_nonneg. auto.
  - replace x with (0 + x) by ring.
    apply Qcplus_le_compat; auto.
Qed.

Lemma Qc_inv_pos t : 0 < t -> 0 < / t.
Proof.
  unfold Qclt, Qcinv, Q2Qc, this. intros Ht. rewrite !Qred_correct.
  rewrite Qred_correct in Ht. apply Qinv_lt_0_compat. destruct t. assumption.
Qed.

Lemma Qc_div_unit x t : 0 <= x -> x <= t -> t <> 0 -> 0 <= x / t /\ x / t <= 1.
Proof.
  intros Hx Hxt Ht.
  assert (Hpos : 0 < t).
  { destruct (Qc_eq_dec 0 t) as [E|E]; [congruence|].
    apply Qcle_lt_or_eq in Hxt.
    assert (H0 : 0 <= t) by (eapply Qcle_trans; [exact Hx|]; destruct Hxt as [H|H];
                             [apply Qclt_le_weak; exact H | rewrite H; apply Qcle_refl]).
    apply Qcle_lt_or_eq in H0. destruct H0; [assumption|contradiction]. }
  pose proof (Qc_inv_pos t Hpos) as Hinv.
  unfold Qcdiv. split.
  - replace 0 with (0 * / t) by ring.
    apply Qcmult_le_compat_r; [assumption | apply Qclt_le_weak; assumption].
  - rewrite <- (Qcmult_inv_r t Ht).
    apply Qcmult_le_compat_r; [assumption | apply Qclt_le_weak; assumption].
Qed.

Lemma nansum_nonneg xs : (forall c, In c xs -> nonneg c) -> 0 <= nansum xs.
Proof.
  intros H. apply Qc_sum_nonneg. intros x Hx. apply dropna_In in Hx.
  apply (H (Some x)). assumption.
Qed.

Lemma nanmean_nonneg xs : (forall c, In c xs -> nonneg c) -> nonneg (nanmean xs).
Proof.
  intros H. unfold nanmean. destruct (dropna xs) as [|v vs] eqn:E; simpl; [exact I|].
  assert (Hs : 0 <= Qc_sum (v :: vs)).
  { apply Qc_sum_nonneg. intros x Hx. rewrite <- E in Hx. apply dropna_In in Hx.
    apply (H (Some x)). assumption. }
  set (n := Qc_of_nat (List.length (v :: vs))).
  assert (Hn : 0 < n).
  { unfold n, Qc_of_nat, Qclt, Q2Qc, this. rewrite !Qred_correct.
    unfold Qlt. simpl. lia. }
  unfold Qcdiv. replace 0 with (0 * / n) by ring.
  apply Qcmult_le_compat_r; [assumption|].
  apply Qclt_le_weak, Qc_inv_pos. assumption.
Qed.

End NumFacts.

(* ================================================================== *)
(** * Facts about tables *)
(* ================================================================== *)

Section TableFacts.

Context {V : Type}.
Implicit Types (cs : list string) (xs : list V) (n : string).

Lemma key_eqb_true k k' : key_eqb k k' = true <-> k = k'.
Proof. apply eqb_of_true. typeclasses eauto. Qed.

Lemma key_eqb_refl k : key_eqb k k = true.
Proof. apply key_eqb_true. reflexivity. Qed.

Lemma existsb_key_eqb k ks : existsb (key_eqb k) ks = true <-> In k ks.
Proof.
  rewrite existsb_exists. split.
  - intros (k' & Hin & E). apply key_eqb_true in E. subst. assumption.
  - intros Hin. exists k. split; [assumption | apply key_eqb_refl].
Qed.

Lemma existsb_eqb_In n cs : existsb (String.eqb n) cs = true <-> In n cs.
Proof.
  rewrite existsb_exists. split.
  - intros (c & Hin & E). apply String.eqb_eq in E. subst. assumption.
  - intros Hin. exists n. split; [assumption | apply String.eqb_refl].
Qed.

Lemma set_label_cons n c cs :
  set_label n (c :: cs) = if String.eqb c n then c :: cs else c :: set_label n cs.
Proof.
  unfold set_label. simpl. rewrite (String.eqb_sym n c).
  destruct (String.eqb c n); simpl; [reflexivity|].
  destruct (existsb (String.eqb n) cs); reflexivity.
Qed.

Lemma set_label_In n cs : In n (set_label n cs).
Proof.
  unfold set_label. destruct (existsb (String.eqb n) cs) eqn:E.
  - apply existsb_eqb_In. assumption.
  - apply in_or_app. right. left. reflexivity.
Qed.

Lemma drop_label_set_label n cs : drop_label n (set_label n cs) = drop_label n cs.
Proof.
  unfold set_label, drop_label. destruct (existsb (String.eqb n) cs); [reflexivity|].
  rewrite filter_app. simpl. rewrite String.eqb_refl. simpl. apply app_nil_r.
Qed.

Lemma drop_label_In n cs c : In c (drop_label n cs) <-> In c cs /\ c <> n.
Proof.
  unfold drop_label. rewrite filter_In, negb_true_iff, String.eqb_neq. reflexivity.
Qed.

Lemma drop_label_notin n cs : ~ In n cs -> drop_label n cs = cs.
Proof.
  intros H. unfold drop_label. induction cs as [|c cs IH]; simpl; [reflexivity|].
  destruct (String.eqb_spec c n) as [->|Hne]; simpl.
  - exfalso. apply H. left. reflexivity.
  - f_equal. apply IH. intros Hin. apply H. right. assumption.
Qed.

Lemma drop_item_notin n cs xs :
  ~ In n cs -> List.length xs = List.length cs -> drop_item n cs xs = xs.
Proof.
  revert xs. induction cs as [|c cs IH]; intros [|x xs] Hn Hl; simpl in *;
    try reflexivity; try discriminate.
  destruct (String.eqb_spec c n) as [->|Hne].
  - exfalso. apply Hn. left. reflexivity.
  - f_equal. apply IH; [|congruence]. intros Hin. apply Hn. right. assumption.
Qed.

Lemma drop_item_In n cs xs x : In x (drop_item n cs xs) -> In x xs.
Proof.
  revert xs. induction cs as [|c cs IH]; intros [|y xs]; simpl; try contradiction.
  destruct (String.eqb c n); simpl.
  - intros H. right. apply (IH _ H).
  - intros [H|H]; [left; assumption | right; apply (IH _ H)].
Qed.

Lemma drop_set n v cs xs :
  List.length xs = List.length cs ->
  drop_item n (set_label n cs) (set_item n v cs xs) = drop_item n cs xs.
Proof.
  revert xs. induction cs as [|c cs IH]; intros [|x xs] Hl; simpl in *;
    try discriminate.
  - rewrite String.eqb_refl. reflexivity.
  - rewrite set_label_cons. destruct (String.eqb c n) eqn:E; simpl; rewrite E.
    + reflexivity.
    + f_equal. apply IH. congruence.
Qed.

Lemma get_set n v cs xs :
  List.length xs = List.length cs ->
  get_item n (set_label n cs) (set_item n v cs xs) = Some v.
Proof.
  revert xs. induction cs as [|c cs IH]; intros [|x xs] Hl; simpl in *;
    try discriminate.
  - rewrite String.eqb_refl. reflexivity.
  - rewrite set_label_cons. destruct (String.eqb c n) eqn:E; simpl; rewrite E.
    + reflexivity.
    + apply IH. congruence.
Qed.

Lemma combine_drop n cs xs :
  combine (drop_label n cs) (drop_item n cs xs)
  = filter (fun p => negb (String.eqb (fst p) n)) (combine cs xs).
Proof.
  revert xs. induction cs as [|c cs IH]; intros [|x xs]; simpl; try reflexivity.
  - apply combine_nil.
  - unfold drop_label in *. simpl. destruct (String.eqb c n); simpl.
    + apply IH.
    + f_equal. apply IH.
Qed.

Lemma get_item_In n cs xs v : get_item n cs xs = Some v -> In (n, v) (combine cs xs).
Proof.
  revert xs. induction cs as [|c cs IH]; intros [|x xs]; simpl; try discriminate.
  destruct (String.eqb_spec c n) as [->|Hne].
  - intros [= ->]. left. reflexivity.
  - intros H. right. apply IH. assumption.
Qed.

End TableFacts.

Section TableMapFacts.

Context {V W : Type} (g : V -> W).

Lemma drop_item_map n cs (xs : list V) :
  drop_item n cs (map g xs) = map g (drop_item n cs xs).
Proof.
  revert xs. induction cs as [|c cs IH]; intros [|x xs]; simpl; try reflexivity.
  destruct (String.eqb c n); simpl; rewrite IH; reflexivity.
Qed.

Lemma get_item_map n cs (xs : list V) :
  get_item n cs (map g xs) = option_map g (get_item n cs xs).
Proof.
  revert xs. induction cs as [|c cs IH]; intros [|x xs]; simpl; try reflexivity.
  destruct (String.eqb c n); simpl; [reflexivity | apply IH].
Qed.


End TableMapFacts.

(* ================================================================== *)
(** * Facts about grouping and pivoting *)
(* ================================================================== *)

Section PandasFacts.

Lemma label_eqb_true g h : label_eqb g h = true <-> g = h.
Proof. apply eqb_of_true. typeclasses eauto. Qed.

Lemma label_eqb_refl g : label_eqb g g = true.
Proof. apply label_eqb_true. reflexivity. Qed.

Lemma label_eqb_pair k f k' f' :
  label_eqb (k, f) (k', f') = key_eqb k k' && String.eqb f f'.
Proof.
  apply eq_true_iff_eq.
  rewrite label_eqb_true, andb_true_iff, key_eqb_true, String.eqb_eq.
  split; [intros [= -> ->]; auto | intros [-> ->]; reflexivity].
Qed.

Lemma existsb_label_eqb g L : existsb (label_eqb g) L = true <-> In g L.
Proof.
  rewrite existsb_exists. split.
  - intros (h & Hin & E). apply label_eqb_true in E. subst. assumption.
  - intros Hin. exists g. split; [assumption | apply label_eqb_refl].
Qed.

Lemma group_values_notin g vd : ~ In g (map fst vd) -> group_values g vd = [].
Proof.
  unfold group_values. induction vd as [|[h c] vd IH]; simpl; intros H; [reflexivity|].
  destruct (label_eqb g h) eqn:E.
  - apply label_eqb_true in E. subst. exfalso. apply H. left. reflexivity.
  - apply IH. intros Hin. apply H. right. assumption.
Qed.

Lemma group_values_In g vd c : In c (group_values g vd) <-> In (g, c) vd.
Proof.
  unfold group_values. rewrite in_map_iff. split.
  - intros ([h c'] & <- & Hin). apply filter_In in Hin. destruct Hin as [Hin E].
    simpl in E. apply label_eqb_true in E. subst. assumption.
  - intros Hin. exists (g, c). split; [reflexivity|].
    apply filter_In. split; [assumption | apply label_eqb_refl].
Qed.

(** Looking a label up after [dropna]: the aggregate of its group, NaN
    when the label has no group. *)
Lemma lookup_label_agged (h : group_label -> cell) g L :
  lookup_label g (dropna_rows (map (fun g => (g, h g)) L))
  = if existsb (label_eqb g) L then h g else None.
Proof.
  unfold lookup_label, dropna_rows.
  induction L as [|a L IH]; simpl; [reflexivity|].
  destruct (h a) as [v|] eqn:Ha; simpl.
  - destruct (label_eqb g a) eqn:E; simpl.
    + apply label_eqb_true in E. subst. symmetry. assumption.
    + apply IH.
  - rewrite IH. destruct (label_eqb g a) eqn:E; simpl; [|reflexivity].
    apply label_eqb_true in E. subst. rewrite Ha.
    destruct (existsb (label_eqb a) L); reflexivity.
Qed.

Lemma lookup_label_mean data k f :
  lookup_label (k, f) (dropna_rows (groupby_agg cmp_label nanmean data))
  = mean_cell (valid_rows data) k f.
Proof.
  unfold groupby_agg.
  rewrite (lookup_label_agged (fun g => nanmean (group_values g (valid_rows data)))).
  unfold mean_cell.
  destruct (existsb _ _) eqn:E; [reflexivity|].
  rewrite group_values_notin; [reflexivity|].
  intros Hin. apply (sort_uniq_In cmp_label) in Hin.
  apply existsb_label_eqb in Hin. congruence.
Qed.

(** The groups that survive [dropna]. *)
Lemma dropna_agged_In data g c :
  In (g, c) (dropna_rows (groupby_agg cmp_label nanmean data))
  <-> c = mean_cell (valid_rows data) (fst g) (snd g) /\ c <> None.
Proof.
  unfold dropna_rows, groupby_agg, mean_cell. rewrite filter_In, in_map_iff. simpl.
  destruct g as [k f]. simpl. split.
  - intros [(g' & [= <- <-] & Hin) Hc]. split; [reflexivity|].
    intros E. rewrite E in Hc. discriminate.
  - intros [-> Hc]. split.
    + exists (k, f). split; [reflexivity|].
      apply (sort_uniq_In cmp_label).
      destruct (in_dec (fun x y => match Bool.bool_dec (label_eqb x y) true with
                                   | left e => left (proj1 (label_eqb_true x y) e)
                                   | right n => right (fun e => n (proj2 (label_eqb_true x y) e))
                                   end) (k, f) (map fst (valid_rows data)))
        as [Hin|Hout]; [assumption|].
      rewrite (group_values_notin _ _ Hout) in Hc. exfalso. apply Hc. reflexivity.
    + destruct (nanmean _); [reflexivity | congruence].
Qed.

Lemma pivot_table_columns_In data f :
  In f (columns (pivot_table data))
  <-> exists k, mean_cell (valid_rows data) k f <> None.
Proof.
  unfold pivot_table, unstack. simpl.
  rewrite (sort_uniq_In String.compare), in_map_iff. split.
  - intros ([[k f'] c] & <- & Hin). apply dropna_agged_In in Hin. simpl in *.
    destruct Hin as [-> Hc]. exists k. assumption.
  - intros [k Hk]. exists ((k, f), mean_cell (valid_rows data) k f).
    split; [reflexivity|]. apply dropna_agged_In. auto.
Qed.

Lemma index_unstack agged :
  index (unstack agged) = sort_uniq cmp_key (map (fun r => fst (fst r)) agged).
Proof.
  unfold unstack, index. cbn [rows]. rewrite map_map. cbn [fst].
  apply map_id.
Qed.

Lemma pivot_table_index_In data k :
  In k (index (pivot_table data))
  <-> exists f, mean_cell (valid_rows data) k f <> None.
Proof.
  unfold pivot_table. rewrite index_unstack.
  rewrite (sort_uniq_In cmp_key), in_map_iff. split.
  - intros ([[k' f] c] & <- & Hin). apply dropna_agged_In in Hin. simpl in *.
    destruct Hin as [-> Hc]. exists f. assumption.
  - intros [f Hf]. exists ((k, f), mean_cell (valid_rows data) k f).
    split; [reflexivity|]. apply dropna_agged_In. auto.
Qed.

(** The rows of a pivot: one per index entry, holding the group means
    under the pivot's columns. *)
Lemma pivot_table_rows data :
  rows (pivot_table data)
  = map (fun k => (k, map (mean_cell (valid_rows data) k) (columns (pivot_table data))))
        (index (pivot_table data)).
Proof.
  unfold pivot_table. rewrite index_unstack. unfold unstack. cbn [rows columns].
  apply map_ext. intros k. f_equal. apply map_ext. intros f.
  apply lookup_label_mean.
Qed.

Lemma pivot_table_columns_sorted data :
  StronglySorted (lt_of String.compare) (columns (pivot_table data)).
Proof. unfold pivot_table, unstack. simpl. apply sort_uniq_sorted. typeclasses eauto. Qed.

Lemma pivot_table_index_NoDup data : NoDup (index (pivot_table data)).
Proof.
  unfold pivot_table. rewrite index_unstack. apply (sort_uniq_NoDup cmp_key).
Qed.

Lemma pivot_table_row_length data r :
  In r (rows (pivot_table data)) ->
  List.length (snd r) = List.length (columns (pivot_table data)).
Proof.
  rewrite pivot_table_rows, in_map_iff. intros (k & <- & _). simpl.
  apply length_map.
Qed.



End PandasFacts.

(* ================================================================== *)
(** * From the records to the pivot *)
(* ================================================================== *)

Section PivotFacts.

Variable key_of : bf_record -> option index_key.

Lemma combine_mmbtu rs : combine rs (map mmbtu rs) = map (fun r => (r, mmbtu r)) rs.
Proof. induction rs as [|r rs IH]; simpl; [reflexivity | rewrite IH; reflexivity]. Qed.

Lemma valid_rows_select rs :
  map fst (valid_rows (select_columns key_of rs (map mmbtu rs))) = labels_of key_of rs.
Proof.
  unfold select_columns. rewrite combine_mmbtu, map_map. simpl.
  induction rs as [|r rs IH]; simpl; [reflexivity|].
  destruct (key_of r) as [k|]; [destruct (fuel_type_code r) as [f|]|]; simpl;
    rewrite IH; reflexivity.
Qed.

Lemma group_values_select rs k f :
  group_values (k, f) (valid_rows (select_columns key_of rs (map mmbtu rs)))
  = group_heat key_of rs k f.
Proof.
  unfold select_columns, group_heat, group_values, in_group.
  rewrite combine_mmbtu, map_map. simpl.
  induction rs as [|r rs IH]; simpl; [reflexivity|].
  destruct (key_of r) as [k'|]; [destruct (fuel_type_code r) as [f'|]|]; simpl;
    try apply IH.
  rewrite label_eqb_pair.
  destruct (key_eqb k k' && String.eqb f f'); simpl; rewrite IH; reflexivity.
Qed.

Lemma labels_of_In rs k f :
  In (k, f) (labels_of key_of rs) <-> existsb (in_group key_of k f) rs = true.
Proof.
  unfold in_group. induction rs as [|r rs IH]; simpl; [split; [contradiction|discriminate]|].
  destruct (key_of r) as [k'|]; [destruct (fuel_type_code r) as [f'|]|]; simpl;
    try apply IH.
  rewrite orb_true_iff, <- IH, <- label_eqb_pair, label_eqb_true.
  split; intros [H|H]; auto.
Qed.

Lemma labels_of_key_In rs k :
  (exists f, In (k, f) (labels_of key_of rs)) <-> existsb (in_entity key_of k) rs = true.
Proof.
  unfold in_entity. induction rs as [|r rs IH]; simpl.
  - split; [intros [_ []] | discriminate].
  - destruct (key_of r) as [k'|]; [destruct (fuel_type_code r) as [f'|]|]; simpl;
      try apply IH.
    rewrite orb_true_iff, <- IH, key_eqb_true. split.
    + intros (f & [[= -> ->]|H]); [left; reflexivity | right; exists f; assumption].
    + intros [->|[f H]]; [exists f'; left; reflexivity | exists f; right; assumption].
Qed.

Lemma group_heat_nil rs k f :
  existsb (in_group key_of k f) rs = false -> group_heat key_of rs k f = [].
Proof.
  unfold group_heat. induction rs as [|r rs IH]; simpl; [reflexivity|].
  rewrite orb_false_iff. intros [-> H]. apply IH. assumption.
Qed.


End PivotFacts.

Section GroupedFacts.

Lemma valid_rows_ungroup agged : valid_rows (ungroup agged) = agged.
Proof.
  unfold ungroup. induction agged as [|[[k f] c] agged IH]; simpl; [reflexivity|].
  rewrite IH. reflexivity.
Qed.

Lemma group_values_agged (h : group_label -> cell) g L :
  NoDup L ->
  group_values g (map (fun g => (g, h g)) L)
  = if existsb (label_eqb g) L then [h g] else [].
Proof.
  unfold group_values. induction 1 as [|a L Ha Hnd IH]; simpl; [reflexivity|].
  destruct (label_eqb g a) eqn:E; simpl.
  - apply label_eqb_true in E. subst. f_equal.
    rewrite IH. destruct (existsb (label_eqb a) L) eqn:E'; [|reflexivity].
    apply existsb_label_eqb in E'. contradiction.
  - apply IH.
Qed.

(** After [groupby(...).sum()] every label occurs once, so the mean
    that [pivot_table] takes is the sum itself. *)
Lemma mean_cell_grouped rs k f :
  mean_cell
    (valid_rows (ungroup (groupby_agg cmp_label_plant agg_sum
                            (select_plant rs (map mmbtu rs))))) k f
  = if existsb (in_group plant_key k f) rs
    then Some (nansum (group_heat plant_key rs k f))
    else None.
Proof.
  rewrite valid_rows_ungroup. unfold mean_cell, groupby_agg, select_plant.
  rewrite (group_values_agged
             (fun g => agg_sum (group_values g
                (valid_rows (select_columns plant_key rs (map mmbtu rs))))));
    [|apply (sort_uniq_NoDup cmp_label_plant)].
  rewrite valid_rows_select.
  destruct (existsb (label_eqb (k, f)) _) eqn:E.
  - apply existsb_label_eqb in E. rewrite (sort_uniq_In cmp_label_plant) in E.
    rewrite labels_of_In in E. rewrite E.
    rewrite group_values_select. unfold agg_sum. apply nanmean_single.
  - destruct (existsb (in_group plant_key k f) rs) eqn:E'; [|reflexivity].
    rewrite <- labels_of_In, <- (sort_uniq_In cmp_label_plant) in E'.
    rewrite <- existsb_label_eqb in E'. congruence.
Qed.

Lemma fuel_pivot_boiler bf_df :
  fuel_pivot bf_df "boiler"
  = Some (pivot_table (select_boiler (bf_rows bf_df) (map mmbtu (bf_rows bf_df)))).
Proof. reflexivity. Qed.

Lemma fuel_pivot_plant bf_df :
  fuel_pivot bf_df "plant"
  = Some (pivot_table
            (ungroup (groupby_agg cmp_label_plant agg_sum
                        (select_plant (bf_rows bf_df) (map mmbtu (bf_rows bf_df)))))).
Proof. reflexivity. Qed.

Lemma fuel_pivot_unbound bf_df level :
  level <> "boiler" -> level <> "plant" -> fuel_pivot bf_df level = None.
Proof.
  intros Hb Hp. unfold fuel_pivot, fuel_pivot_of.
  apply String.eqb_neq in Hb. apply String.eqb_neq in Hp. rewrite Hb, Hp. reflexivity.
Qed.

End GroupedFacts.

(* ================================================================== *)
(** * From the pivot to the share table *)
(* ================================================================== *)

Section ShareFacts.

Variable cs : list string.

Lemma total_with_total r :
  List.length (snd r) = List.length cs ->
  get_item "total" (set_label "total" cs) (snd (with_total cs r)) = Some (nansum (snd r)).
Proof.
  intros Hl. unfold with_total. cbn [snd].
  rewrite get_item_map, get_set by assumption. reflexivity.
Qed.

Lemma zero_index_with_total l :
  Forall (fun r => List.length (snd r) = List.length cs) l ->
  map fst (filter (is_zero cs) (map (with_total cs) l))
  = map fst (filter (fun r => Qc_eqb (nansum (snd r)) 0) l).
Proof.
  induction 1 as [|r l Hr Hl IH]; [reflexivity|].
  cbn [map filter]. unfold is_zero at 1. rewrite (total_with_total r Hr).
  destruct (Qc_eqb (nansum (snd r)) 0); cbn [map]; rewrite IH; reflexivity.
Qed.

Lemma shares_with_total zeros l :
  Forall (fun r => List.length (snd r) = List.length cs) l ->
  map (dropped cs)
    (map (divided cs)
       (filter (fun r => negb (existsb (key_eqb (fst r)) zeros)) (map (with_total cs) l)))
  = map (fun r => (fst r, share_row cs (snd r)))
        (filter (fun r => negb (existsb (key_eqb (fst r)) zeros)) l).
Proof.
  induction 1 as [|r l Hr Hl IH]; [reflexivity|].
  cbn [map filter]. change (fst (with_total cs r)) with (fst r).
  destruct (negb (existsb (key_eqb (fst r)) zeros)); [|apply IH].
  cbn [map]. rewrite IH. f_equal.
  unfold dropped, divided. rewrite (total_with_total r Hr).
  unfold with_total, share_row. cbn [fst snd]. f_equal.
  rewrite !drop_item_map, drop_set by assumption. apply map_map.
Qed.

End ShareFacts.

Section ShareTable.

Lemma shares_of_pivot_frame level fuel_pivot :
  well_formed fuel_pivot ->
  shares_of_pivot level fuel_pivot
  = reset_index (index_names level) (share_frame fuel_pivot).
Proof.
  intros Hwf. unfold shares_of_pivot. f_equal.
  assert (Hall : Forall (fun r => List.length (snd r) = List.length (columns fuel_pivot))
                        (rows fuel_pivot))
    by (apply Forall_forall; exact Hwf).
  unfold share_frame, drop_column, divide_by, drop_rows, zero_index, index,
    map_cells, assign, kept_rows, zero_rows.
  cbn [columns rows]. rewrite drop_label_set_label. f_equal.
  rewrite !map_map. cbn [fst snd].
  rewrite <- (shares_with_total (columns fuel_pivot) _ _ Hall).
  rewrite <- (zero_index_with_total (columns fuel_pivot) _ Hall).
  rewrite !map_map. reflexivity.
Qed.

Lemma pivot_table_well_formed data : well_formed (pivot_table data).
Proof. intros r. apply pivot_table_row_length. Qed.

Lemma fuel_pivot_well_formed bf_df level fp :
  fuel_pivot bf_df level = Some fp -> well_formed fp.
Proof.
  unfold fuel_pivot, fuel_pivot_of.
  destruct (String.eqb level "boiler"); [|destruct (String.eqb level "plant")];
    intros [= <-] || discriminate; apply pivot_table_well_formed.
Qed.

(** What [calculate_fuel_percentage] returns, in one equation. *)
Lemma calculate_fuel_percentage_result bf_df level :
  snd (calculate_fuel_percentage bf_df level)
  = match fuel_pivot bf_df level with
    | None => Raise UnboundLocalError
    | Some fp => reset_index (index_names level) (share_frame fp)
    end.
Proof.
  unfold calculate_fuel_percentage. cbn [snd bf_rows].
  fold (fuel_pivot bf_df level).
  destruct (fuel_pivot bf_df level) as [fp|] eqn:E; [|reflexivity].
  apply shares_of_pivot_frame. eapply fuel_pivot_well_formed. eassumption.
Qed.

Lemma reset_index_Ok names fr fr' : reset_index names fr = Ok fr' -> fr' = fr.
Proof. unfold reset_index. destruct (existsb _ _); congruence. Qed.

(** A returned share table is the share frame of the pivot. *)
Lemma calculate_fuel_percentage_Ok bf_df level fr :
  snd (calculate_fuel_percentage bf_df level) = Ok fr ->
  exists fp, fuel_pivot bf_df level = Some fp /\ well_formed fp /\ fr = share_frame fp.
Proof.
  rewrite calculate_fuel_percentage_result.
  destruct (fuel_pivot bf_df level) as [fp|] eqn:E; [|discriminate].
  intros H. apply reset_index_Ok in H. exists fp. split; [reflexivity|].
  split; [eapply fuel_pivot_well_formed; eassumption | assumption].
Qed.

(** The rows of a share frame. *)
Lemma share_frame_rows fp k ys :
  In (k, ys) (rows (share_frame fp)) <->
  exists xs, In (k, xs) (rows fp) /\ ys = share_row (columns fp) xs
             /\ forall xs', In (k, xs') (rows fp) -> nansum xs' <> 0.
Proof.
  unfold share_frame, kept_rows. cbn [rows]. rewrite in_map_iff. split.
  - intros ([k' xs] & [= <- <-] & Hin). apply filter_In in Hin.
    destruct Hin as [Hin Hz]. cbn [fst] in Hz.
    exists xs. split; [assumption|]. split; [reflexivity|].
    intros xs' Hin' E. apply negb_true_iff in Hz.
    rewrite <- not_true_iff_false in Hz. apply Hz.
    apply existsb_key_eqb. unfold zero_rows. apply in_map_iff.
    exists (k', xs'). split; [reflexivity|]. apply filter_In. split; [assumption|].
    cbn [snd]. apply Qc_eqb_true. assumption.
  - intros (xs & Hin & -> & Hnz). exists (k, xs). split; [reflexivity|].
    apply filter_In. split; [assumption|]. cbn [fst].
    apply negb_true_iff. rewrite <- not_true_iff_false. intros Hz.
    apply existsb_key_eqb in Hz. unfold zero_rows in Hz. apply in_map_iff in Hz.
    destruct Hz as ([k' xs'] & E & Hz). cbn [fst] in E. subst k'.
    apply filter_In in Hz. destruct Hz as [Hin' Hz]. cbn [snd] in Hz.
    apply Qc_eqb_true in Hz. exact (Hnz xs' Hin' Hz).
Qed.

End ShareTable.

(* ================================================================== *)
(** * Levels, errors and the caller's table *)
(* ================================================================== *)

Section Levels.

Lemma determine_primary_fuel_result bf_df fuel_thresh level :
  snd (determine_primary_fuel bf_df fuel_thresh level)
  = match snd (calculate_fuel_percentage bf_df level) with
    | Ok pf_by_heat => classify fuel_thresh pf_by_heat
    | Raise e => Raise e
    end.
Proof.
  unfold determine_primary_fuel.
  destruct (calculate_fuel_percentage bf_df level) as [bf_df1 [fr|e]]; reflexivity.
Qed.

Lemma determine_primary_fuel_caller bf_df fuel_thresh level :
  fst (determine_primary_fuel bf_df fuel_thresh level)
  = fst (calculate_fuel_percentage bf_df level).
Proof.
  unfold determine_primary_fuel.
  destruct (calculate_fuel_percentage bf_df level) as [bf_df1 [fr|e]]; reflexivity.
Qed.

(** The classifier answers with its rows, or refuses a table that has
    rows and no column. *)
Lemma classify_cases fuel_thresh fr :
  classify fuel_thresh fr = Ok (primary_fuels fuel_thresh fr)
  \/ (classify fuel_thresh fr = Raise ValueError
      /\ columns fr = [] /\ rows fr <> []).
Proof.
  unfold classify. destruct (columns fr); [|left; reflexivity].
  destruct (rows fr); [left; reflexivity|].
  right. split; [reflexivity|]. split; [reflexivity | discriminate].
Qed.

Lemma classify_Ok fuel_thresh fr out :
  classify fuel_thresh fr = Ok out -> out = primary_fuels fuel_thresh fr.
Proof.
  destruct (classify_cases fuel_thresh fr) as [E|[E _]]; rewrite E; congruence.
Qed.

Lemma classify_threshold t t' fr out' :
  classify t' fr = Ok out' -> classify t fr = Ok (primary_fuels t fr).
Proof.
  unfold classify. destruct (columns fr); [|reflexivity].
  destruct (rows fr); [reflexivity | discriminate].
Qed.

Lemma get_column_set_same name col extra :
  get_column name (set_column name col extra) = Some col.
Proof.
  induction extra as [|[n c] extra IH]; simpl.
  - rewrite String.eqb_refl. reflexivity.
  - destruct (String.eqb n name) eqn:E; simpl; rewrite E; [reflexivity | apply IH].
Qed.

Lemma get_column_set_other name col extra other :
  other <> name ->
  get_column other (set_column name col extra) = get_column other extra.
Proof.
  intros Hne. induction extra as [|[n c] extra IH]; simpl.
  - apply String.eqb_neq in Hne. rewrite String.eqb_sym, Hne. reflexivity.
  - destruct (String.eqb_spec n name) as [->|Hn]; simpl.
    + apply String.eqb_neq in Hne. rewrite String.eqb_sym, Hne. reflexivity.
    + destruct (String.eqb n other); [reflexivity | apply IH].
Qed.

Lemma fuel_pivot_level bf_df level :
  level = "boiler" \/ level = "plant" -> exists fp, fuel_pivot bf_df level = Some fp.
Proof. intros [->| ->]; eexists; reflexivity. Qed.

Lemma key_of_level_boiler : key_of_level "boiler" = boiler_key.
Proof. reflexivity. Qed.

Lemma key_of_level_plant : key_of_level "plant" = plant_key.
Proof. reflexivity. Qed.

Lemma in_group_fuel key_of k f rs :
  existsb (in_group key_of k f) rs = true ->
  exists r, In r rs /\ fuel_type_code r = Some f.
Proof.
  rewrite existsb_exists. intros (r & Hin & E). exists r. split; [assumption|].
  unfold in_group in E. destruct (key_of r); [|discriminate].
  destruct (fuel_type_code r) as [f'|]; [|discriminate].
  apply andb_true_iff in E. destruct E as [_ E]. apply String.eqb_eq in E.
  congruence.
Qed.

Lemma group_heat_exists key_of rs k f :
  nanmean (group_heat key_of rs k f) <> None ->
  existsb (in_group key_of k f) rs = true.
Proof.
  intros H. destruct (existsb (in_group key_of k f) rs) eqn:E; [reflexivity|].
  rewrite (group_heat_nil _ _ _ _ E) in H. exfalso. apply H. reflexivity.
Qed.


Lemma fuel_pivot_shape bf_df level fp :
  fuel_pivot bf_df level = Some fp ->
  rows fp = map (fun k => (k, map (level_cell level (bf_rows bf_df) k) (columns fp)))
                (index fp)
  /\ NoDup (index fp)
  /\ StronglySorted (lt_of String.compare) (columns fp)
  /\ (forall f, In f (columns fp)
                <-> exists k, level_cell level (bf_rows bf_df) k f <> None)
  /\ (forall k, In k (index fp)
                <-> exists f, level_cell level (bf_rows bf_df) k f <> None).
Proof.
  unfold fuel_pivot, fuel_pivot_of, level_cell.
  destruct (String.eqb level "boiler").
  - intros [= <-]. unfold select_boiler.
    rewrite pivot_table_rows at 1.
    split; [|split; [|split; [|split]]].
    + apply map_ext. intros k. f_equal. apply map_ext. intros f.
      unfold mean_cell. rewrite group_values_select. reflexivity.
    + apply pivot_table_index_NoDup.
    + apply pivot_table_columns_sorted.
    + intros f. rewrite pivot_table_columns_In. unfold mean_cell.
      split; intros [k Hk]; exists k; rewrite group_values_select in *; assumption.
    + intros k. rewrite pivot_table_index_In. unfold mean_cell.
      split; intros [f Hf]; exists f; rewrite group_values_select in *; assumption.
  - destruct (String.eqb level "plant"); [|discriminate].
    intros [= <-]. rewrite pivot_table_rows at 1.
    split; [|split; [|split; [|split]]].
    + apply map_ext. intros k. f_equal. apply map_ext. intros f.
      apply mean_cell_grouped.
    + apply pivot_table_index_NoDup.
    + apply pivot_table_columns_sorted.
    + intros f. rewrite pivot_table_columns_In.
      split; intros [k Hk]; exists k; rewrite mean_cell_grouped in *; assumption.
    + intros k. rewrite pivot_table_index_In.
      split; intros [f Hf]; exists f; rewrite mean_cell_grouped in *; assumption.
Qed.

Lemma level_cell_fuel level rs k f :
  level_cell level rs k f <> None -> exists r, In r rs /\ fuel_type_code r = Some f.
Proof.
  unfold level_cell. destruct (String.eqb level "boiler").
  - intros H. apply group_heat_exists in H. eapply in_group_fuel. eassumption.
  - destruct (existsb (in_group plant_key k f) rs) eqn:E; [|congruence].
    intros _. eapply in_group_fuel. eassumption.
Qed.

(** A column of the pivot is the fuel type code of some record. *)
Lemma fuel_pivot_columns_fuel bf_df level fp f :
  fuel_pivot bf_df level = Some fp -> In f (columns fp) ->
  exists r, In r (bf_rows bf_df) /\ fuel_type_code r = Some f.
Proof.
  intros Hfp Hin. apply fuel_pivot_shape in Hfp.
  destruct Hfp as (_ & _ & _ & Hcols & _). apply Hcols in Hin.
  destruct Hin as [k Hk]. eapply level_cell_fuel. eassumption.
Qed.

End Levels.

(* ================================================================== *)
(** * Properties of the two functions *)
(* ================================================================== *)

(** ** Unrecognised levels *)

(** C10.  For a level other than ['boiler'] and ['plant'] no pivot is
    built ([fuel_pivot] stays unbound), and both
    [calculate_fuel_percentage] and [determine_primary_fuel] raise instead
    of returning a table. *)
Theorem unrecognized_level_raises (bf_df : bf_frame) (fuel_thresh : Qc) (level : string) :
  level <> "boiler" -> level <> "plant" ->
  fuel_pivot bf_df level = None
  /\ snd (calculate_fuel_percentage bf_df level) = Raise UnboundLocalError
  /\ snd (determine_primary_fuel bf_df fuel_thresh level) = Raise UnboundLocalError.
Proof.
  intros Hb Hp. pose proof (fuel_pivot_unbound bf_df level Hb Hp) as Hfp.
  split; [assumption|].
  assert (Hc : snd (calculate_fuel_percentage bf_df level) = Raise UnboundLocalError).
  { rewrite calculate_fuel_percentage_result, Hfp. reflexivity. }
  split; [assumption|].
  rewrite determine_primary_fuel_result, Hc. reflexivity.
Qed.

Lemma unrecognized_level_raises_witness :
  fuel_pivot two_boilers "generator" = None
  /\ snd (calculate_fuel_percentage two_boilers "generator") = Raise UnboundLocalError
  /\ snd (determine_primary_fuel two_boilers (Q2Qc (9 # 10)) "generator")
     = Raise UnboundLocalError.
Proof.
  apply (unrecognized_level_raises two_boilers (Q2Qc (9 # 10)) "generator");
    discriminate.
Defined.

(** The scenario of one plant with 100 MMBTU of coal and an idle gas
    record: shares 1 and 0, primary fuel coal at threshold 9/10. *)
Example coal_with_idle_gas :
  view (snd (calculate_fuel_percentage coal_and_idle_gas "plant"))
  = Some (["COAL"; "GAS"], [((1%Z, 1%Z, None), [1%Q; 0%Q])])
  /\ snd (determine_primary_fuel coal_and_idle_gas (Q2Qc (9 # 10)) "plant")
     = Ok [mk_pf 1 None 1 "COAL"].
Proof. split; vm_compute; reflexivity. Qed.

(** ** The caller's table *)

(** C9, as the code has it.  Both functions write the column
    [fuel_consumed_mmbtu] (units times heat per unit, row by row) into the
    caller's table, adding it or overwriting a column of that name; the
    rows over the six documented columns and every other column stay as
    they were. *)
Theorem caller_table_gains_mmbtu_column (bf_df : bf_frame) (fuel_thresh : Qc)
    (level : string) :
  let after := fst (calculate_fuel_percentage bf_df level) in
  fst (determine_primary_fuel bf_df fuel_thresh level) = after
  /\ bf_rows after = bf_rows bf_df
  /\ get_column "fuel_consumed_mmbtu" (bf_extra after) = Some (map mmbtu (bf_rows bf_df))
  /\ forall name, name <> "fuel_consumed_mmbtu" ->
       get_column name (bf_extra after) = get_column name (bf_extra bf_df).
Proof.
  cbv zeta. split; [apply determine_primary_fuel_caller|].
  unfold calculate_fuel_percentage. cbn [fst bf_rows bf_extra].
  split; [reflexivity|]. split.
  - apply get_column_set_same.
  - intros name Hne. apply get_column_set_other. assumption.
Qed.

(** C9 fails as stated: after the call the caller's table has a column it
    did not have before. *)
Lemma input_table_is_modified :
  ~ (forall bf_df level, fst (calculate_fuel_percentage bf_df level) = bf_df)
  /\ bf_columns two_boilers = base_columns
  /\ bf_columns (fst (calculate_fuel_percentage two_boilers "plant"))
     = (base_columns ++ ["fuel_consumed_mmbtu"])%list
  /\ bf_columns (fst (determine_primary_fuel two_boilers (Q2Qc (9 # 10)) "plant"))
     = (base_columns ++ ["fuel_consumed_mmbtu"])%list.
Proof.
  split; [|repeat split; reflexivity].
  intros H. specialize (H two_boilers "plant").
  apply (f_equal (fun f => List.length (bf_extra f))) in H. discriminate.
Qed.

(** ** Records with missing fields *)

(** C5, as the code has it.  No record is validated: for level ['boiler']
    or ['plant'] the call returns a table whatever fields are missing,
    unless a fuel type code is the name of one of the key columns (then
    [reset_index] refuses).  The heat of a record with missing units or
    missing heat per unit is NaN. *)
Theorem missing_fields_do_not_raise (bf_df : bf_frame) (level : string) :
  level = "boiler" \/ level = "plant" ->
  (forall r f, In r (bf_rows bf_df) -> fuel_type_code r = Some f ->
               ~ In f (index_names level)) ->
  (exists fr, snd (calculate_fuel_percentage bf_df level) = Ok fr)
  /\ forall r, In r (bf_rows bf_df) ->
       fuel_consumed_units r = None \/ fuel_mmbtu_per_unit r = None -> mmbtu r = None.
Proof.
  intros Hlevel Hfuel. split.
  - destruct (fuel_pivot_level bf_df level Hlevel) as [fp Hfp].
    rewrite calculate_fuel_percentage_result, Hfp. unfold reset_index.
    destruct (existsb _ (columns (share_frame fp))) eqn:E; [|eexists; reflexivity].
    exfalso. apply existsb_exists in E. destruct E as (c & Hc & E).
    apply existsb_eqb_In in E. unfold share_frame in Hc. cbn [columns] in Hc.
    apply drop_label_In in Hc. destruct Hc as [Hc _].
    destruct (fuel_pivot_columns_fuel _ _ _ _ Hfp Hc) as (r & Hr & Hf).
    exact (Hfuel r c Hr Hf E).
  - intros r _ [H|H]; unfold mmbtu, cell_mul; rewrite H; [reflexivity|].
    destruct (fuel_consumed_units r); reflexivity.
Qed.

Lemma missing_fields_do_not_raise_witness :
  (exists fr, snd (calculate_fuel_percentage missing_heat "boiler") = Ok fr)
  /\ forall r, In r (bf_rows missing_heat) ->
       fuel_consumed_units r = None \/ fuel_mmbtu_per_unit r = None -> mmbtu r = None.
Proof.
  apply (missing_fields_do_not_raise missing_heat "boiler").
  - left. reflexivity.
  - intros r f [<-|[<-|[]]] [= <-]; simpl; intros [H|[H|[H|[]]]]; discriminate.
Defined.

(** C5 fails as stated: a table with a record whose heat per unit is
    missing is answered with a share table, at either level. *)
Lemma missing_heat_is_not_refused :
  (exists r, In r (bf_rows missing_heat) /\ fuel_mmbtu_per_unit r = None)
  /\ view (snd (calculate_fuel_percentage missing_heat "boiler"))
     = Some (["COAL"], [((1%Z, 1%Z, Some "B1"), [1%Q])])
  /\ view (snd (calculate_fuel_percentage missing_heat "plant"))
     = Some (["COAL"; "GAS"], [((1%Z, 1%Z, None), [1%Q; 0%Q])]).
Proof.
  split; [|split; vm_compute; reflexivity].
  eexists. split; [right; left; reflexivity | reflexivity].
Qed.

(** ** The pivot *)


Lemma in_group_boiler_iff d p b f r :
  in_group boiler_key (d, p, Some b) f r = true
  <-> report_date r = Some d /\ plant_id_eia r = Some p /\ boiler_id r = Some b
      /\ fuel_type_code r = Some f.
Proof.
  unfold in_group, boiler_key.
  destruct (report_date r) as [d'|]; [|split; [discriminate | intros [[=] _]]].
  destruct (plant_id_eia r) as [p'|]; [|split; [discriminate | intros (_ & [=] & _)]].
  destruct (boiler_id r) as [b'|]; [|split; [discriminate | intros (_ & _ & [=] & _)]].
  destruct (fuel_type_code r) as [f'|];
    [|split; [discriminate | intros (_ & _ & _ & [=])]].
  rewrite andb_true_iff, key_eqb_true, String.eqb_eq. split.
  - intros [[= -> -> ->] ->]. auto.
  - intros ([= ->] & [= ->] & [= ->] & [= ->]). auto.
Qed.






(** Two boilers of one plant burn coal: the plant-level cell is the sum
    over both, 10 x 2 + 5 x 2 = 30 MMBTU. *)
Example plant_pivot_adds_boilers :
  match fuel_pivot two_boilers "plant" with
  | Some fp => index fp = [(1%Z, 1%Z, None)]
               /\ view_cell (cell_at fp (1%Z, 1%Z, None) "COAL") = Some (30 # 1)%Q
  | None => False
  end.
Proof. split; vm_compute; reflexivity. Qed.

(** C8 at two coal records of 1 and 3 MMBTU for one boiler and month:
    the call returns a table, and the pivot cell is their mean 2, which is
    neither of the two values (nor their total 4); the coal share is 1/2,
    where picking one record would give 1/3 or 3/5. *)
Lemma duplicates_are_averaged :
  let k := (1%Z, 1%Z, Some "B1") in
  map view_cell (group_heat boiler_key (bf_rows duplicate_coal) k "COAL")
  = [Some 1%Q; Some 3%Q]
  /\ (exists fuel_pivot_table,
        fuel_pivot duplicate_coal "boiler" = Some fuel_pivot_table
        /\ view_cell (cell_at fuel_pivot_table k "COAL") = Some 2%Q
        /\ ~ In (cell_at fuel_pivot_table k "COAL")
                (group_heat boiler_key (bf_rows duplicate_coal) k "COAL"))
  /\ view (snd (calculate_fuel_percentage duplicate_coal "boiler"))
     = Some (["COAL"; "GAS"], [(k, [1 # 2; 1 # 2])]).
Proof.
  cbv zeta. split; [vm_compute; reflexivity|]. split; [|vm_compute; reflexivity].
  eexists. split; [reflexivity|]. split; [vm_compute; reflexivity|].
  intros H. apply (in_map view_cell) in H. vm_compute in H.
  destruct H as [H|[H|[]]]; discriminate.
Qed.

(** ** The share table *)

Lemma share_row_sum cs xs :
  ~ In "total" cs -> List.length xs = List.length cs -> nansum xs <> 0 ->
  Qc_sum (share_row cs xs) = 1.
Proof.
  intros Hn Hl Ht. unfold share_row. rewrite drop_item_notin by assumption.
  rewrite <- (map_map fill0 (fun x => x / nansum xs)).
  rewrite Qc_sum_map_div, Qc_sum_fill0. apply Qc_div_self. assumption.
Qed.

Lemma share_row_unit cs xs y :
  (forall c, In c xs -> nonneg c) -> nansum xs <> 0 ->
  In y (share_row cs xs) -> 0 <= y /\ y <= 1.
Proof.
  intros Hnn Ht Hy. unfold share_row in Hy. apply in_map_iff in Hy.
  destruct Hy as (c & <- & Hc). apply drop_item_In in Hc.
  apply Qc_div_unit; [| |assumption].
  - specialize (Hnn c Hc). destruct c; simpl; [assumption | apply Qcle_refl].
  - destruct c as [v|]; simpl.
    + unfold nansum. apply Qc_sum_ge.
      * intros z Hz. apply dropna_In in Hz. apply (Hnn (Some z) Hz).
      * apply dropna_In. assumption.
    + apply nansum_nonneg. assumption.
Qed.

Lemma level_cell_nonneg level rs k f :
  (forall r, In r rs -> nonneg (mmbtu r)) -> nonneg (level_cell level rs k f).
Proof.
  intros H.
  assert (Hg : forall key_of c, In c (group_heat key_of rs k f) -> nonneg c).
  { intros key_of c Hc. unfold group_heat in Hc. apply in_map_iff in Hc.
    destruct Hc as (r & <- & Hr). apply filter_In in Hr. apply H. tauto. }
  unfold level_cell. destruct (String.eqb level "boiler").
  - apply nanmean_nonneg. apply Hg.
  - destruct (existsb _ rs); [|exact I]. simpl. apply nansum_nonneg. apply Hg.
Qed.

(** The rows of a returned share table, traced back to the records. *)
Lemma share_table_rows bf_df level fr k ys :
  snd (calculate_fuel_percentage bf_df level) = Ok fr ->
  In (k, ys) (rows fr) ->
  exists fp,
    fuel_pivot bf_df level = Some fp
    /\ fr = share_frame fp
    /\ In k (index fp)
    /\ let xs := map (level_cell level (bf_rows bf_df) k) (columns fp) in
       In (k, xs) (rows fp) /\ nansum xs <> 0 /\ ys = share_row (columns fp) xs.
Proof.
  intros Hok Hin. apply calculate_fuel_percentage_Ok in Hok.
  destruct Hok as (fp & Hfp & Hwf & ->). exists fp.
  split; [assumption|]. split; [reflexivity|].
  apply share_frame_rows in Hin. destruct Hin as (xs & Hxs & -> & Hnz).
  pose proof (fuel_pivot_shape _ _ _ Hfp) as (Hrows & _).
  assert (Hk : In k (index fp)) by (apply in_map_iff; exists (k, xs); auto).
  split; [assumption|]. cbv zeta.
  assert (E : xs = map (level_cell level (bf_rows bf_df) k) (columns fp)).
  { rewrite Hrows in Hxs. apply in_map_iff in Hxs.
    destruct Hxs as (k' & [= -> <-] & _). reflexivity. }
  rewrite <- E. split; [assumption|]. split; [|reflexivity]. apply Hnz. assumption.
Qed.

(** C6, for heat that is not negative.  When the heat of every record
    (units times heat per unit) is NaN or at least 0, no cell of a
    returned share table is below 0 and none is above 1.  (Stated with
    the two comparisons, which a share that is not a number fails as
    well.) *)
Theorem shares_in_unit_interval (bf_df : bf_frame) (level : string) (fr : frame Qc) :
  snd (calculate_fuel_percentage bf_df level) = Ok fr ->
  (forall r, In r (bf_rows bf_df) -> nonneg (mmbtu r)) ->
  forall k ys y, In (k, ys) (rows fr) -> In y ys -> ~ y < 0 /\ ~ 1 < y.
Proof.
  intros Hok Hnn k ys y Hin Hy.
  destruct (share_table_rows _ _ _ _ _ Hok Hin) as (fp & Hfp & _ & _ & Hrow).
  cbv zeta in Hrow. destruct Hrow as (_ & Hnz & ->).
  assert (Hunit : 0 <= y /\ y <= 1).
  { eapply share_row_unit; [|exact Hnz|exact Hy].
    intros c Hc. apply in_map_iff in Hc. destruct Hc as (f & <- & _).
    apply level_cell_nonneg. assumption. }
  split; apply Qcle_not_lt; apply Hunit.
Qed.

Lemma shares_in_unit_interval_witness :
  view (snd (calculate_fuel_percentage two_boilers "boiler"))
  = Some (["COAL"; "GAS"],
          [((1%Z, 1%Z, Some "B1"), [1%Q; 0%Q]); ((1%Z, 1%Z, Some "B2"), [1 # 4; 3 # 4])])
  /\ forall k ys y,
       In (k, ys) (rows (table_of (snd (calculate_fuel_percentage two_boilers "boiler")))) ->
       In y ys -> ~ y < 0 /\ ~ 1 < y.
Proof.
  split; [vm_compute; reflexivity|].
  apply (shares_in_unit_interval two_boilers "boiler").
  - vm_compute. reflexivity.
  - intros r [<-|[<-|[<-|[]]]]; vm_compute; discriminate.
Defined.

(** C1 at a fuel type code that reads ["total"]: the column of that
    fuel is overwritten by the row sums and dropped with them, and the one
    share that is left is 1/2, so the row does not sum to 1. *)
Lemma fuel_named_total_is_lost :
  view (snd (calculate_fuel_percentage fuel_named_total "plant"))
  = Some (["COAL"], [((1%Z, 1%Z, None), [1 # 2])])
  /\ exists k ys,
       In (k, ys) (rows (table_of (snd (calculate_fuel_percentage fuel_named_total "plant"))))
       /\ Qc_sum ys <> 1.
Proof.
  split; [vm_compute; reflexivity|].
  eexists. eexists. split; [left; reflexivity|].
  intros H. apply (f_equal this) in H. vm_compute in H. discriminate.
Qed.

(** C6 fails as stated: with 3 MMBTU of coal and -1 MMBTU of gas the
    shares are 3/2 and -1/2, one above 1 and one below 0. *)
Lemma negative_heat_leaves_unit_interval :
  view (snd (calculate_fuel_percentage negative_units "plant"))
  = Some (["COAL"; "GAS"], [((1%Z, 1%Z, None), [3 # 2; (-1) # 2])])
  /\ ~ (forall k ys y,
          In (k, ys) (rows (table_of (snd (calculate_fuel_percentage negative_units "plant")))) ->
          In y ys -> 0 <= y /\ y <= 1)
  /\ exists k ys above below,
       In (k, ys) (rows (table_of (snd (calculate_fuel_percentage negative_units "plant"))))
       /\ In above ys /\ 1 < above /\ In below ys /\ below < 0.
Proof.
  assert (Hrow : exists k ys above below,
             In (k, ys) (rows (table_of (snd (calculate_fuel_percentage negative_units "plant"))))
             /\ In above ys /\ 1 < above /\ In below ys /\ below < 0).
  { eexists. eexists. eexists. eexists. split; [left; reflexivity|].
    split; [left; reflexivity|]. split; [vm_compute; reflexivity|].
    split; [right; left; reflexivity | vm_compute; reflexivity]. }
  split; [vm_compute; reflexivity|]. split; [|exact Hrow].
  intros H. destruct Hrow as (k & ys & above & _ & Hin & Ha & Hlt & _).
  destruct (H k ys above Hin Ha) as [_ Hle].
  exact (Qclt_not_le _ _ Hlt Hle).
Qed.

(** ** Entity-periods without heat *)

Section Groups.

Variable key_of : bf_record -> option index_key.

Lemma group_heat_cons r rs k f :
  group_heat key_of (r :: rs) k f
  = if in_group key_of k f r
    then mmbtu r :: group_heat key_of rs k f
    else group_heat key_of rs k f.
Proof.
  unfold group_heat. cbn [filter]. destruct (in_group key_of k f r); reflexivity.
Qed.

End Groups.

Lemma primary_fuels_keys fuel_thresh fr :
  map pf_key (primary_fuels fuel_thresh fr) = index fr.
Proof.
  unfold primary_fuels, index, map_cells. cbn [rows columns]. rewrite !map_map.
  apply map_ext. intros [[[d p] b] ys]. reflexivity.
Qed.

(** C2 at a boiler and month with two coal records of 1 MMBTU and a gas
    record of -2 MMBTU: the heat is 0 in all, yet the pivot holds the mean
    1 for coal instead of the total 2, the row sums to -1, and the boiler
    and month are in the share table and in the classifier's output. *)
Lemma cancelled_heat_is_kept :
  let k := (1%Z, 1%Z, Some "B1") in
  total_heat boiler_key (bf_rows cancelling) k = 0
  /\ view (snd (calculate_fuel_percentage cancelling "boiler"))
     = Some (["COAL"; "GAS"], [(k, [(-1) # 1; 2 # 1])])
  /\ In k (index (table_of (snd (calculate_fuel_percentage cancelling "boiler"))))
  /\ snd (determine_primary_fuel cancelling (Q2Qc (9 # 10)) "boiler")
     = Ok [mk_pf 1 (Some "B1") 1 "GAS"].
Proof.
  cbv zeta. split; [apply Qc_is_canon; vm_compute; reflexivity|].
  split; [vm_compute; reflexivity|].
  split; [left; reflexivity | vm_compute; reflexivity].
Qed.

(** ** The classifier *)

Section Idxmax.

Lemma idxmax_items_None its :
  idxmax_items its = None <-> forall c v, In (c, v) its -> v = None.
Proof.
  induction its as [|[c [v|]] its IH]; simpl.
  - split; [intros _ c v [] | reflexivity].
  - split.
    + destruct (idxmax_items its) as [[c' v']|]; [|discriminate].
      destruct (Qc_ltb v v'); discriminate.
    + intros H. specialize (H c (Some v) (or_introl eq_refl)). discriminate.
  - rewrite IH. split.
    + intros H c' v' [[= <- <-]|Hin]; [reflexivity | eauto].
    + intros H c' v' Hin. apply (H c'). right. assumption.
Qed.

(** [idxmax] stops at the first largest cell. *)
Lemma idxmax_items_first its c v :
  idxmax_items its = Some (c, v) ->
  exists pre post,
    its = (pre ++ (c, Some v) :: post)%list
    /\ (forall c' v', In (c', Some v') pre -> v' < v)
    /\ (forall c' v', In (c', Some v') post -> v' <= v).
Proof.
  revert c v. induction its as [|[c0 [v0|]] its IH]; simpl; intros c v H.
  - discriminate.
  - destruct (idxmax_items its) as [[c1 v1]|] eqn:E.
    + destruct (IH c1 v1 eq_refl) as (pre & post & -> & Hpre & Hpost).
      destruct (Qc_ltb v0 v1) eqn:Hlt; injection H as <- <-.
      * apply Qc_ltb_true in Hlt.
        exists ((c0, Some v0) :: pre), post. split; [reflexivity|]. split.
        -- intros c' v' [[= <- <-]|Hin]; [assumption | eauto].
        -- assumption.
      * apply Qc_ltb_false in Hlt.
        exists [], (pre ++ (c1, Some v1) :: post)%list. split; [reflexivity|]. split.
        -- intros c' v' [].
        -- intros c' v' Hin. apply in_app_or in Hin.
           destruct Hin as [Hin|[[= <- <-]|Hin]].
           ++ apply Qclt_le_weak. eapply Qclt_le_trans; [eapply Hpre; eassumption|assumption].
           ++ assumption.
           ++ eapply Qcle_trans; [eapply Hpost; eassumption | assumption].
    + injection H as <- <-. exists [], its. split; [reflexivity|]. split.
      * intros c' v' [].
      * intros c' v' Hin. apply idxmax_items_None with (c := c') (v := Some v') in E;
          [discriminate | assumption].
  - destruct (IH c v H) as (pre & post & -> & Hpre & Hpost).
    exists ((c0, None) :: pre), post. split; [reflexivity|]. split.
    + intros c' v' [[=]|Hin]. eauto.
    + assumption.
Qed.

Lemma idxmax_items_max its c v :
  idxmax_items its = Some (c, v) ->
  In (c, Some v) its /\ forall c' v', In (c', Some v') its -> v' <= v.
Proof.
  intros H. destruct (idxmax_items_first its c v H) as (pre & post & -> & Hpre & Hpost).
  split; [apply in_or_app; right; left; reflexivity|].
  intros c' v' Hin. apply in_app_or in Hin. destruct Hin as [Hin|[[= <- <-]|Hin]].
  - apply Qclt_le_weak. eauto.
  - apply Qcle_refl.
  - eauto.
Qed.

Variable fuel_thresh : Qc.

Lemma combine_where (cols : list string) ys :
  combine cols (map (where_ge fuel_thresh) ys)
  = map (fun it : string * Qc => (fst it, where_ge fuel_thresh (snd it)))
        (combine cols ys).
Proof.
  revert ys. induction cols as [|c cols IH]; intros [|y ys]; simpl; try reflexivity.
  rewrite IH. reflexivity.
Qed.

Lemma where_ge_Some y v : where_ge fuel_thresh y = Some v <-> v = y /\ fuel_thresh <= y.
Proof.
  unfold where_ge. destruct (Qc_leb fuel_thresh y) eqn:E.
  - apply Qc_leb_true in E. split; [intros [= <-]; auto | intros [-> _]; reflexivity].
  - split; [discriminate|]. intros [_ H]. apply Qc_leb_true in H. congruence.
Qed.

Lemma masked_In (cols : list string) ys c v :
  In (c, Some v) (combine cols (map (where_ge fuel_thresh) ys))
  <-> In (c, v) (combine cols ys) /\ fuel_thresh <= v.
Proof.
  rewrite combine_where, in_map_iff. split.
  - intros ([c' y] & [= <- E] & Hin). simpl in E. apply where_ge_Some in E.
    destruct E as [-> Ht]. auto.
  - intros [Hin Ht]. exists (c, v). split; [|assumption]. simpl. f_equal.
    apply where_ge_Some. auto.
Qed.

(** What [idxmax] after the mask answers, row by row. *)
Lemma idxmax_masked (cols : list string) ys :
  match idxmax cols (map (where_ge fuel_thresh) ys) with
  | None => forall c y, In (c, y) (combine cols ys) -> y < fuel_thresh
  | Some pf =>
      exists y, In (pf, y) (combine cols ys) /\ fuel_thresh <= y
                /\ forall c' y', In (c', y') (combine cols ys) -> y' <= y
  end.
Proof.
  unfold idxmax.
  destruct (idxmax_items (combine cols (map (where_ge fuel_thresh) ys)))
    as [[pf v]|] eqn:E; simpl.
  - apply idxmax_items_max in E. destruct E as [Hin Hmax].
    apply masked_In in Hin. destruct Hin as [Hin Ht].
    exists v. split; [assumption|]. split; [assumption|].
    intros c' y' Hin'. destruct (Qclt_le_dec y' fuel_thresh) as [Hlt|Hge].
    + apply Qclt_le_weak. eapply Qclt_le_trans; eassumption.
    + apply (Hmax c'). apply masked_In. auto.
  - intros c y Hin. destruct (Qclt_le_dec y fuel_thresh) as [Hlt|Hge]; [assumption|].
    rewrite idxmax_items_None in E.
    assert (H : In (c, Some y) (combine cols (map (where_ge fuel_thresh) ys)))
      by (apply masked_In; auto).
    apply E in H. discriminate.
Qed.


End Idxmax.

Section Classifier.

Variable fuel_thresh : Qc.

(** Every row of the share table is answered by one row of the output,
    in order, with the same entity-period. *)
Lemma primary_fuels_rows (P : list (string * Qc) -> string -> Prop) fr :
  (forall r, In r (rows fr) ->
     P (items fr (snd r))
       (label_or_unknown (idxmax (columns fr) (map (where_ge fuel_thresh) (snd r))))) ->
  Forall2 (fun r o => pf_key o = fst r /\ P (items fr (snd r)) (primary_fuel o))
          (rows fr) (primary_fuels fuel_thresh fr).
Proof.
  unfold primary_fuels, map_cells, items. cbn [rows columns]. rewrite map_map. cbn [fst snd].
  generalize (columns fr) as cols. intros cols.
  induction (rows fr) as [|[[[d p] b] ys] l IH]; intros H; [constructor|].
  cbn [map]. constructor.
  - split; [reflexivity|]. apply (H (d, p, b, ys)). left. reflexivity.
  - apply IH. intros r Hr. apply H. right. assumption.
Qed.

Lemma sorted_combine {V} cols (xs : list V) :
  StronglySorted (lt_of String.compare) cols ->
  StronglySorted (fun a b => lt_of String.compare (fst a) (fst b)) (combine cols xs).
Proof.
  intros Hs. revert xs. induction Hs as [|c cols Hs IH Hc]; intros [|x xs]; simpl;
    try constructor.
  - apply IH.
  - rewrite Forall_forall in *. intros [c' x'] Hin. simpl.
    apply Hc. eapply in_combine_l. eassumption.
Qed.

Lemma sorted_map_fst {V W} (g : string * V -> string * W) l :
  (forall a, fst (g a) = fst a) ->
  StronglySorted (fun a b => lt_of String.compare (fst a) (fst b)) l ->
  StronglySorted (fun a b => lt_of String.compare (fst a) (fst b)) (map g l).
Proof.
  intros Hg. induction 1 as [|a l Hs IH Ha]; simpl; constructor; [assumption|].
  rewrite Forall_forall in *. intros b Hb. apply in_map_iff in Hb.
  destruct Hb as (b' & <- & Hb'). rewrite !Hg. auto.
Qed.

Lemma sorted_after {A} (R : A -> A -> Prop) pre a post :
  StronglySorted R (pre ++ a :: post) -> Forall (R a) post.
Proof.
  induction pre as [|b pre IH]; simpl; intros H; inversion H; subst; auto.
Qed.

Lemma sorted_filter {A} (R : A -> A -> Prop) (p : A -> bool) l :
  StronglySorted R l -> StronglySorted R (filter p l).
Proof.
  induction 1 as [|a l Hs IH Ha]; simpl; [constructor|].
  destruct (p a); [|assumption]. constructor; [assumption|].
  rewrite Forall_forall in *. intros b Hb. apply filter_In in Hb. apply Ha. tauto.
Qed.

Lemma first_of_tied_row cols ys :
  StronglySorted (lt_of String.compare) cols ->
  first_of_tied fuel_thresh (combine cols ys)
    (label_or_unknown (idxmax cols (map (where_ge fuel_thresh) ys))).
Proof.
  intros Hs c y Hin Ht Hmax. unfold idxmax.
  assert (Hc : In (c, Some y) (combine cols (map (where_ge fuel_thresh) ys)))
    by (apply masked_In; auto).
  destruct (idxmax_items (combine cols (map (where_ge fuel_thresh) ys)))
    as [[pf v]|] eqn:E; simpl.
  - pose proof (idxmax_items_max _ _ _ E) as [Hpf Hle].
    apply masked_In in Hpf. destruct Hpf as [Hpf Hv].
    assert (Evy : v = y).
    { apply Qcle_antisym; [apply (Hmax pf); assumption | apply (Hle c); assumption]. }
    subst v. split; [assumption|].
    destruct (idxmax_items_first _ _ _ E) as (pre & post & Eits & Hpre & _).
    assert (Hsorted : StronglySorted (fun a b => lt_of String.compare (fst a) (fst b))
                        (combine cols (map (where_ge fuel_thresh) ys))).
    { rewrite combine_where. apply sorted_map_fst; [reflexivity|].
      apply sorted_combine. assumption. }
    rewrite Eits in Hc, Hsorted. apply in_app_or in Hc.
    destruct Hc as [Hc|[[= ->]|Hc]].
    + exfalso. apply (Qclt_not_le _ _ (Hpre c y Hc)). apply Qcle_refl.
    + unfold String.leb. rewrite (cmp_refl String.compare). reflexivity.
    + apply sorted_after in Hsorted. rewrite Forall_forall in Hsorted.
      specialize (Hsorted _ Hc). unfold lt_of in Hsorted. simpl in Hsorted.
      unfold String.leb. rewrite Hsorted. reflexivity.
  - rewrite idxmax_items_None in E. apply E in Hc. discriminate.
Qed.

Lemma share_table_columns_sorted bf_df level fr :
  snd (calculate_fuel_percentage bf_df level) = Ok fr ->
  StronglySorted (lt_of String.compare) (columns fr).
Proof.
  intros Hok. apply calculate_fuel_percentage_Ok in Hok.
  destruct Hok as (fp & Hfp & _ & ->). unfold share_frame. cbn [columns].
  apply sorted_filter. apply (fuel_pivot_shape _ _ _ Hfp).
Qed.

End Classifier.



(** A table without records gives an empty share table and an empty
    classification. *)
Example empty_table_passes :
  view (snd (calculate_fuel_percentage (table []) "boiler")) = Some ([], [])
  /\ snd (determine_primary_fuel (table []) (Q2Qc (9 # 10)) "boiler") = Ok [].
Proof. split; vm_compute; reflexivity. Qed.

(** A share table can end up with a row and without a column, and the
    classifier then raises: here the only fuel column is the one
    labelled ["total"]. *)
Lemma table_without_columns_is_refused :
  view (snd (calculate_fuel_percentage only_total "plant"))
  = Some ([], [((1%Z, 1%Z, None), [])])
  /\ snd (determine_primary_fuel only_total (Q2Qc (9 # 10)) "plant") = Raise ValueError.
Proof. split; vm_compute; reflexivity. Qed.

(** C4.  In every row of a returned share table, a fuel whose share
    reaches the threshold and is the largest share doing so is matched by
    the reported fuel: the reported fuel has the same share and comes
    first, in the lexicographic order of the fuel type codes, among the
    fuels tied at that share. *)
Theorem tie_goes_to_first_fuel_code (bf_df : bf_frame) (level : string)
    (fuel_thresh : Qc) (fr : frame Qc) :
  snd (calculate_fuel_percentage bf_df level) = Ok fr ->
  snd (determine_primary_fuel bf_df fuel_thresh level) = classify fuel_thresh fr
  /\ match classify fuel_thresh fr with
     | Ok out =>
         Forall2 (fun r o => pf_key o = fst r
                             /\ first_of_tied fuel_thresh (items fr (snd r)) (primary_fuel o))
                 (rows fr) out
     | Raise e => e = ValueError /\ columns fr = []
     end.
Proof.
  intros Hok. split.
  - rewrite determine_primary_fuel_result, Hok. reflexivity.
  - destruct (classify_cases fuel_thresh fr) as [E|(E & Ec & _)]; rewrite E; [|auto].
    apply primary_fuels_rows. intros r _. apply first_of_tied_row.
    eapply share_table_columns_sorted. eassumption.
Qed.

Lemma tie_goes_to_first_fuel_code_witness :
  view (snd (calculate_fuel_percentage tied "plant"))
  = Some (["COAL"; "GAS"], [((1%Z, 1%Z, None), [1 # 2; 1 # 2])])
  /\ snd (determine_primary_fuel tied (Q2Qc (1 # 2)) "plant") = Ok [mk_pf 1 None 1 "COAL"]
  /\ let fr := table_of (snd (calculate_fuel_percentage tied "plant")) in
     snd (determine_primary_fuel tied (Q2Qc (1 # 2)) "plant") = classify (Q2Qc (1 # 2)) fr
     /\ match classify (Q2Qc (1 # 2)) fr with
        | Ok out =>
            Forall2 (fun r o => pf_key o = fst r
                                /\ first_of_tied (Q2Qc (1 # 2)) (items fr (snd r))
                                                 (primary_fuel o))
                    (rows fr) out
        | Raise e => e = ValueError /\ columns fr = []
        end.
Proof.
  split; [vm_compute; reflexivity|]. split; [vm_compute; reflexivity|].
  cbv zeta. apply (tie_goes_to_first_fuel_code tied "plant").
  vm_compute. reflexivity.
Defined.

(* ================================================================== *)
(** * Further properties of the two functions *)
(* ================================================================== *)

(** ** The shape of a returned share table *)

Section Shape.

Lemma NoDup_map_fst_filter {A B} (p : A * B -> bool) (l : list (A * B)) :
  NoDup (map fst l) -> NoDup (map fst (filter p l)).
Proof.
  induction l as [|a l IH]; simpl; intros H; [constructor|].
  inversion H as [|? ? Hout Hnd]; subst.
  destruct (p a); simpl; [|auto].
  constructor; [|auto].
  intros Hin. apply Hout. apply in_map_iff in Hin.
  destruct Hin as (b & E & Hb). apply filter_In in Hb.
  apply in_map_iff. exists b. tauto.
Qed.

Lemma index_share_frame fp :
  index (share_frame fp) = map fst (kept_rows fp).
Proof.
  unfold share_frame, index. cbn [rows]. rewrite map_map. reflexivity.
Qed.

Lemma drop_item_length {V} n cs (xs : list V) :
  List.length xs = List.length cs ->
  List.length (drop_item n cs xs) = List.length (drop_label n cs).
Proof.
  revert xs. induction cs as [|c cs IH]; intros [|x xs] Hl; simpl in *;
    try reflexivity; try discriminate.
  unfold drop_label in *. simpl. destruct (String.eqb c n); simpl.
  - apply IH. congruence.
  - f_equal. apply IH. congruence.
Qed.

Lemma reset_index_names names fr fr' :
  reset_index names fr = Ok fr' ->
  forall c, In c (columns fr) -> ~ In c names.
Proof.
  unfold reset_index.
  destruct (existsb _ (columns fr)) eqn:E; [discriminate|].
  intros _ c Hc Hn. rewrite <- not_true_iff_false in E. apply E.
  apply existsb_exists. exists c. split; [assumption|].
  apply existsb_eqb_In. assumption.
Qed.

End Shape.

(** X1.  A returned share table is a proper table of fuel shares: no
    entity-period occurs twice, the columns are fuel type codes of the
    input in strictly increasing order, none is labelled ["total"] or
    like a key column, and every row has one cell per column. *)
Theorem share_table_is_well_formed (bf_df : bf_frame) (level : string) (fr : frame Qc) :
  snd (calculate_fuel_percentage bf_df level) = Ok fr ->
  NoDup (index fr)
  /\ StronglySorted (lt_of String.compare) (columns fr)
  /\ ~ In "total" (columns fr)
  /\ (forall c, In c (columns fr) ->
        ~ In c (index_names level)
        /\ exists r, In r (bf_rows bf_df) /\ fuel_type_code r = Some c)
  /\ well_formed fr.
Proof.
  intros Hok.
  assert (Hnames : forall c, In c (columns fr) -> ~ In c (index_names level)).
  { rewrite calculate_fuel_percentage_result in Hok.
    destruct (fuel_pivot bf_df level) as [fp|]; [|discriminate].
    pose proof (reset_index_names _ _ _ Hok) as H.
    apply reset_index_Ok in Hok. subst fr. exact H. }
  pose proof (share_table_columns_sorted bf_df level fr Hok) as Hsorted.
  apply calculate_fuel_percentage_Ok in Hok. destruct Hok as (fp & Hfp & Hwf & ->).
  pose proof (fuel_pivot_shape _ _ _ Hfp) as (_ & Hnd & _).
  split; [|split; [|split; [|split]]].
  - rewrite index_share_frame. apply NoDup_map_fst_filter. exact Hnd.
  - exact Hsorted.
  - unfold share_frame. cbn [columns]. rewrite drop_label_In. tauto.
  - intros c Hc. split; [auto|].
    unfold share_frame in Hc. cbn [columns] in Hc. apply drop_label_In in Hc.
    eapply fuel_pivot_columns_fuel; [eassumption | tauto].
  - intros [k ys] Hin. apply share_frame_rows in Hin.
    destruct Hin as (xs & Hxs & -> & _). cbn [snd]. unfold share_frame, share_row.
    cbn [columns]. rewrite length_map. apply drop_item_length.
    apply (Hwf (k, xs) Hxs).
Qed.

Lemma share_table_is_well_formed_witness :
  let fr := table_of (snd (calculate_fuel_percentage two_boilers "boiler")) in
  index fr = [(1%Z, 1%Z, Some "B1"); (1%Z, 1%Z, Some "B2")]
  /\ columns fr = ["COAL"; "GAS"]
  /\ NoDup (index fr)
  /\ StronglySorted (lt_of String.compare) (columns fr)
  /\ ~ In "total" (columns fr)
  /\ (forall c, In c (columns fr) ->
        ~ In c (index_names "boiler")
        /\ exists r, In r (bf_rows two_boilers) /\ fuel_type_code r = Some c)
  /\ well_formed fr.
Proof.
  cbv zeta. split; [vm_compute; reflexivity|]. split; [vm_compute; reflexivity|].
  apply (share_table_is_well_formed two_boilers "boiler").
  vm_compute. reflexivity.
Defined.

(** ** The classifier's rows *)

(** X2.  When [determine_primary_fuel] returns, it returns exactly one row
    per row of the share table of [calculate_fuel_percentage], in the same
    order and for the same entity-period, and no entity-period twice. *)
Theorem one_primary_fuel_per_entity (bf_df : bf_frame) (fuel_thresh : Qc)
    (level : string) (out : list primary_fuel_row) :
  snd (determine_primary_fuel bf_df fuel_thresh level) = Ok out ->
  exists fr,
    snd (calculate_fuel_percentage bf_df level) = Ok fr
    /\ map pf_key out = index fr
    /\ List.length out = List.length (rows fr)
    /\ NoDup (map pf_key out).
Proof.
  rewrite determine_primary_fuel_result.
  destruct (snd (calculate_fuel_percentage bf_df level)) as [fr|e] eqn:Hok;
    [|discriminate].
  intros Hcls. apply classify_Ok in Hcls. subst out.
  exists fr. split; [reflexivity|].
  assert (Hkeys : map pf_key (primary_fuels fuel_thresh fr) = index fr)
    by apply primary_fuels_keys.
  split; [exact Hkeys|]. split.
  - rewrite <- (length_map pf_key), Hkeys. unfold index. apply length_map.
  - rewrite Hkeys. apply calculate_fuel_percentage_Ok in Hok.
    destruct Hok as (fp & Hfp & _ & ->).
    rewrite index_share_frame. apply NoDup_map_fst_filter.
    apply (fuel_pivot_shape _ _ _ Hfp).
Qed.

Lemma one_primary_fuel_per_entity_witness :
  exists fr,
    snd (calculate_fuel_percentage two_boilers "boiler") = Ok fr
    /\ map pf_key [mk_pf 1 (Some "B1") 1 "COAL"; mk_pf 1 (Some "B2") 1 "unknown"]
       = index fr
    /\ List.length [mk_pf 1 (Some "B1") 1 "COAL"; mk_pf 1 (Some "B2") 1 "unknown"]
       = List.length (rows fr)
    /\ NoDup (map pf_key [mk_pf 1 (Some "B1") 1 "COAL"; mk_pf 1 (Some "B2") 1 "unknown"]).
Proof.
  apply (one_primary_fuel_per_entity two_boilers (Q2Qc (9 # 10)) "boiler").
  vm_compute. reflexivity.
Defined.

(** ** Calling again on the table the call has written to *)

Lemma set_column_twice name col extra :
  set_column name col (set_column name col extra) = set_column name col extra.
Proof.
  induction extra as [|[n c] extra IH]; simpl.
  - rewrite String.eqb_refl. reflexivity.
  - destruct (String.eqb n name) eqn:E; simpl; rewrite E; [reflexivity|].
    rewrite IH. reflexivity.
Qed.

(** X3.  The column that the call writes into the caller's table does not
    disturb a second call: on the table as the first call left it, both
    functions return what they returned the first time and leave the
    table as it is. *)
Theorem second_call_repeats_the_first (bf_df : bf_frame) (fuel_thresh : Qc)
    (level : string) :
  let after := fst (calculate_fuel_percentage bf_df level) in
  calculate_fuel_percentage after level = calculate_fuel_percentage bf_df level
  /\ determine_primary_fuel after fuel_thresh level
     = determine_primary_fuel bf_df fuel_thresh level.
Proof.
  cbv zeta.
  assert (H : calculate_fuel_percentage (fst (calculate_fuel_percentage bf_df level)) level
              = calculate_fuel_percentage bf_df level).
  { unfold calculate_fuel_percentage. cbn [fst bf_rows bf_extra].
    rewrite set_column_twice. reflexivity. }
  split; [exact H|]. unfold determine_primary_fuel. rewrite H. reflexivity.
Qed.

(** ** What the share table does not depend on *)

Section Extensionality.

Lemma sorted_ext {A} (cmp : A -> A -> comparison) `{!StrictCmp cmp} (l1 l2 : list A) :
  StronglySorted (lt_of cmp) l1 -> StronglySorted (lt_of cmp) l2 ->
  (forall x, In x l1 <-> In x l2) -> l1 = l2.
Proof.
  intros H1. revert l2. induction H1 as [|x l1 Hs1 IH Hx]; intros l2 H2 Hin.
  - destruct l2 as [|y l2]; [reflexivity|].
    exfalso. apply (Hin y). left. reflexivity.
  - destruct H2 as [|y l2 Hs2 Hy].
    + exfalso. apply (Hin x). left. reflexivity.
    + rewrite Forall_forall in Hx, Hy.
      assert (Irr : forall a, ~ lt_of cmp a a).
      { intros a Ha. unfold lt_of in Ha. rewrite (cmp_refl cmp) in Ha. discriminate. }
      assert (E : x = y).
      { destruct (proj1 (Hin x) (or_introl eq_refl)) as [E|Hxl2]; [congruence|].
        destruct (proj2 (Hin y) (or_introl eq_refl)) as [E|Hyl1]; [congruence|].
        exfalso. apply (Irr x). unfold lt_of.
        apply (cmp_trans (cmp := cmp) x y x); [apply Hx | apply Hy]; assumption. }
      subst y. f_equal. apply IH; [assumption|].
      intros z. split; intros Hz.
      * destruct (proj1 (Hin z) (or_intror Hz)) as [E|H]; [|assumption].
        subst z. exfalso. apply (Irr x). apply Hx. assumption.
      * destruct (proj2 (Hin z) (or_intror Hz)) as [E|H]; [|assumption].
        subst z. exfalso. apply (Irr x). apply Hy. assumption.
Qed.

Lemma pivot_table_index_sorted data :
  StronglySorted (lt_of cmp_key) (index (pivot_table data)).
Proof.
  unfold pivot_table. rewrite index_unstack. apply sort_uniq_sorted. typeclasses eauto.
Qed.

Lemma fuel_pivot_index_sorted bf_df level fp :
  fuel_pivot bf_df level = Some fp -> StronglySorted (lt_of cmp_key) (index fp).
Proof.
  unfold fuel_pivot, fuel_pivot_of.
  destruct (String.eqb level "boiler"); [|destruct (String.eqb level "plant")];
    intros [= <-] || discriminate; apply pivot_table_index_sorted.
Qed.

Lemma fuel_pivot_defined bf_df bf_df' level fp :
  fuel_pivot bf_df level = Some fp -> exists fp', fuel_pivot bf_df' level = Some fp'.
Proof.
  unfold fuel_pivot, fuel_pivot_of.
  destruct (String.eqb level "boiler"); [eexists; reflexivity|].
  destruct (String.eqb level "plant"); [eexists; reflexivity | discriminate].
Qed.

(** The pivot is a function of the cells of the level. *)
Lemma fuel_pivot_ext bf_df bf_df' level :
  (forall k f, level_cell level (bf_rows bf_df) k f
               = level_cell level (bf_rows bf_df') k f) ->
  fuel_pivot bf_df level = fuel_pivot bf_df' level.
Proof.
  intros Hcell.
  destruct (fuel_pivot bf_df level) as [fp|] eqn:Hfp.
  - destruct (fuel_pivot_defined bf_df bf_df' level fp Hfp) as [fp' Hfp'].
    rewrite Hfp'. f_equal.
    pose proof (fuel_pivot_shape _ _ _ Hfp) as (Hrows & _ & Hcs & Hcols & Hidx).
    pose proof (fuel_pivot_shape _ _ _ Hfp') as (Hrows' & _ & Hcs' & Hcols' & Hidx').
    pose proof (fuel_pivot_index_sorted _ _ _ Hfp) as Hks.
    pose proof (fuel_pivot_index_sorted _ _ _ Hfp') as Hks'.
    assert (Ec : columns fp = columns fp').
    { apply (sorted_ext String.compare); try assumption.
      intros f. rewrite Hcols, Hcols'.
      split; intros [k Hk]; exists k; [rewrite <- Hcell | rewrite Hcell]; assumption. }
    assert (Ek : index fp = index fp').
    { apply (sorted_ext cmp_key); try assumption.
      intros k. rewrite Hidx, Hidx'.
      split; intros [f Hf]; exists f; [rewrite <- Hcell | rewrite Hcell]; assumption. }
    destruct fp as [cs rs], fp' as [cs' rs']. cbn [columns rows] in *.
    unfold index in *. cbn [rows] in *. subst cs'. f_equal.
    rewrite Hrows, Hrows', Ek. apply map_ext. intros k. f_equal.
    apply map_ext. intros f. apply Hcell.
  - destruct (fuel_pivot bf_df' level) as [fp'|] eqn:Hfp'; [|reflexivity].
    destruct (fuel_pivot_defined bf_df' bf_df level fp' Hfp') as [fp Hfp''].
    congruence.
Qed.

(** And so are the results of the two functions. *)
Lemma results_ext bf_df bf_df' level fuel_thresh :
  (forall k f, level_cell level (bf_rows bf_df) k f
               = level_cell level (bf_rows bf_df') k f) ->
  snd (calculate_fuel_percentage bf_df level)
  = snd (calculate_fuel_percentage bf_df' level)
  /\ snd (determine_primary_fuel bf_df fuel_thresh level)
     = snd (determine_primary_fuel bf_df' fuel_thresh level).
Proof.
  intros Hcell.
  assert (H : snd (calculate_fuel_percentage bf_df level)
              = snd (calculate_fuel_percentage bf_df' level)).
  { rewrite !calculate_fuel_percentage_result, (fuel_pivot_ext _ _ _ Hcell).
    reflexivity. }
  split; [exact H|]. rewrite !determine_primary_fuel_result, H. reflexivity.
Qed.

End Extensionality.

Section Ignored.

Variable key_of : bf_record -> option index_key.

Lemma in_group_has_keys k f r : in_group key_of k f r = true -> has_keys key_of r = true.
Proof.
  unfold in_group, has_keys. destruct (key_of r); [|discriminate].
  destruct (fuel_type_code r); [reflexivity | discriminate].
Qed.

Lemma filter_in_group_has_keys k f rs :
  filter (in_group key_of k f) (filter (has_keys key_of) rs)
  = filter (in_group key_of k f) rs.
Proof.
  induction rs as [|r rs IH]; simpl; [reflexivity|].
  destruct (has_keys key_of r) eqn:E; simpl.
  - rewrite IH. reflexivity.
  - rewrite IH. destruct (in_group key_of k f r) eqn:E'; [|reflexivity].
    apply in_group_has_keys in E'. congruence.
Qed.

Lemma group_heat_has_keys k f rs :
  group_heat key_of (filter (has_keys key_of) rs) k f = group_heat key_of rs k f.
Proof. unfold group_heat. rewrite filter_in_group_has_keys. reflexivity. Qed.

Lemma existsb_has_keys k f rs :
  existsb (in_group key_of k f) (filter (has_keys key_of) rs)
  = existsb (in_group key_of k f) rs.
Proof.
  induction rs as [|r rs IH]; simpl; [reflexivity|].
  destruct (has_keys key_of r) eqn:E; simpl; rewrite IH; [reflexivity|].
  destruct (in_group key_of k f r) eqn:E'; [|reflexivity].
  apply in_group_has_keys in E'. congruence.
Qed.

End Ignored.

(** X7.  Records that miss a key of the level (the period, the plant id,
    at boiler level the boiler id) or the fuel type code take no part:
    both functions answer as if those records were not in the table. *)
Theorem records_without_keys_are_ignored (bf_df : bf_frame) (fuel_thresh : Qc)
    (level : string) :
  let complete := mk_bf_frame (filter (has_keys (key_of_level level)) (bf_rows bf_df))
                              (bf_extra bf_df) in
  snd (calculate_fuel_percentage complete level)
  = snd (calculate_fuel_percentage bf_df level)
  /\ snd (determine_primary_fuel complete fuel_thresh level)
     = snd (determine_primary_fuel bf_df fuel_thresh level).
Proof.
  cbv zeta. apply results_ext. intros k f. cbn [bf_rows].
  unfold level_cell, key_of_level. destruct (String.eqb level "boiler").
  - rewrite group_heat_has_keys. reflexivity.
  - rewrite group_heat_has_keys, existsb_has_keys. reflexivity.
Qed.

Section Boilers.

Lemma same_but_boiler_group rs rs' k f :
  Forall2 same_but_boiler rs rs' ->
  group_heat plant_key rs k f = group_heat plant_key rs' k f
  /\ existsb (in_group plant_key k f) rs = existsb (in_group plant_key k f) rs'.
Proof.
  induction 1 as [|r r' rs rs' Hr Hrs [IH1 IH2]]; [split; reflexivity|].
  destruct Hr as (Hd & Hp & Hf & Hu & Hh).
  assert (Eg : in_group plant_key k f r = in_group plant_key k f r').
  { unfold in_group, plant_key. rewrite Hd, Hp, Hf. reflexivity. }
  assert (Em : mmbtu r = mmbtu r').
  { unfold mmbtu. rewrite Hu, Hh. reflexivity. }
  split.
  - rewrite !group_heat_cons, Eg, Em, IH1. reflexivity.
  - simpl. rewrite Eg, IH2. reflexivity.
Qed.

End Boilers.

(** X8.  At plant level the boiler of a record does not matter: two tables
    whose records agree row by row on period, plant, fuel, units and heat
    per unit get the same answer, whatever their boiler ids. *)
Theorem plant_level_ignores_boilers (bf_df bf_df' : bf_frame) (fuel_thresh : Qc) :
  Forall2 same_but_boiler (bf_rows bf_df) (bf_rows bf_df') ->
  snd (calculate_fuel_percentage bf_df "plant")
  = snd (calculate_fuel_percentage bf_df' "plant")
  /\ snd (determine_primary_fuel bf_df fuel_thresh "plant")
     = snd (determine_primary_fuel bf_df' fuel_thresh "plant").
Proof.
  intros H. apply results_ext. intros k f.
  destruct (same_but_boiler_group _ _ k f H) as [Eg Ee].
  unfold level_cell. simpl. rewrite Eg, Ee. reflexivity.
Qed.

Lemma plant_level_ignores_boilers_witness :
  let merged := table [rec 1 "B9" "COAL" 1 10 2; rec 1 "B9" "COAL" 1 5 2;
                       mk_bf (Some 1%Z) None (Some "GAS") (Some 1%Z) (num 30) (num 1)] in
  snd (calculate_fuel_percentage two_boilers "plant")
  = snd (calculate_fuel_percentage merged "plant")
  /\ snd (determine_primary_fuel two_boilers (Q2Qc (9 # 10)) "plant")
     = snd (determine_primary_fuel merged (Q2Qc (9 # 10)) "plant").
Proof.
  cbv zeta. apply plant_level_ignores_boilers.
  repeat constructor.
Defined.

(** ** Thresholds *)

Section Thresholds.

Lemma idxmax_items_intro pre c v post :
  (forall c' v', In (c', Some v') pre -> v' < v) ->
  (forall c' v', In (c', Some v') post -> v' <= v) ->
  idxmax_items (pre ++ (c, Some v) :: post) = Some (c, v).
Proof.
  intros Hpre Hpost. induction pre as [|[c0 [v0|]] pre IH]; simpl.
  - destruct (idxmax_items post) as [[c1 v1]|] eqn:E; [|reflexivity].
    apply idxmax_items_max in E. destruct E as [Hin _].
    replace (Qc_ltb v v1) with false; [reflexivity|].
    symmetry. apply Qc_ltb_false. eapply Hpost. eassumption.
  - rewrite IH.
    + replace (Qc_ltb v0 v) with true; [reflexivity|].
      symmetry. apply Qc_ltb_true. apply (Hpre c0). left. reflexivity.
    + intros c' v' Hin. apply (Hpre c'). right. assumption.
  - apply IH. intros c' v' Hin. apply (Hpre c'). right. assumption.
Qed.

Lemma mask_item_In fuel_thresh its c v :
  In (c, Some v) (map (mask_item fuel_thresh) its) <-> In (c, v) its /\ fuel_thresh <= v.
Proof.
  rewrite in_map_iff. unfold mask_item. split.
  - intros ([c' y] & [= <- E] & Hin). simpl in E. apply where_ge_Some in E.
    destruct E as [-> Ht]. auto.
  - intros [Hin Ht]. exists (c, v). split; [|assumption]. simpl. f_equal.
    apply where_ge_Some. auto.
Qed.

(** The first largest share, when it reaches the threshold, is what
    [idxmax] finds behind the mask, and nothing else is. *)
Lemma idxmax_items_masked fuel_thresh its c v :
  idxmax_items (map (mask_item fuel_thresh) its) = Some (c, v) <->
  fuel_thresh <= v
  /\ exists pre post,
       its = (pre ++ (c, v) :: post)%list
       /\ (forall c' v', In (c', v') pre -> v' < v)
       /\ (forall c' v', In (c', v') post -> v' <= v).
Proof.
  split.
  - intros H. destruct (idxmax_items_first _ _ _ H) as (mpre & mpost & E & Hpre & Hpost).
    apply map_eq_app in E. destruct E as (pre & rest & -> & <- & E).
    apply map_eq_cons in E. destruct E as ([c0 v0] & post & -> & E0 & <-).
    unfold mask_item in E0. simpl in E0. injection E0 as -> E0.
    apply where_ge_Some in E0. destruct E0 as [-> Ht].
    split; [assumption|]. exists pre, post. split; [reflexivity|]. split.
    + intros c' v' Hin. destruct (Qclt_le_dec v' fuel_thresh) as [Hlt|Hge].
      * eapply Qclt_le_trans; eassumption.
      * apply (Hpre c'). apply mask_item_In. auto.
    + intros c' v' Hin. destruct (Qclt_le_dec v' fuel_thresh) as [Hlt|Hge].
      * apply Qclt_le_weak. eapply Qclt_le_trans; eassumption.
      * apply (Hpost c'). apply mask_item_In. auto.
  - intros (Ht & pre & post & -> & Hpre & Hpost).
    rewrite map_app. cbn [map]. unfold mask_item at 2. cbn [fst snd].
    replace (where_ge fuel_thresh v) with (Some v)
      by (symmetry; apply where_ge_Some; auto).
    apply idxmax_items_intro.
    + intros c' v' Hin. apply mask_item_In in Hin. apply (Hpre c'). tauto.
    + intros c' v' Hin. apply mask_item_In in Hin. apply (Hpost c'). tauto.
Qed.

Lemma idxmax_lower (cols : list string) ys t t' c :
  t <= t' ->
  idxmax cols (map (where_ge t') ys) = Some c ->
  idxmax cols (map (where_ge t) ys) = Some c.
Proof.
  intros Htt. unfold idxmax. rewrite !combine_where.
  change (fun it : string * Qc => (fst it, where_ge t' (snd it))) with (mask_item t').
  change (fun it : string * Qc => (fst it, where_ge t (snd it))) with (mask_item t).
  destruct (idxmax_items (map (mask_item t') (combine cols ys))) as [[c' v]|] eqn:E;
    [|discriminate].
  simpl. intros [= ->]. apply idxmax_items_masked in E. destruct E as [Ht' Hsplit].
  replace (idxmax_items (map (mask_item t) (combine cols ys))) with (Some (c, v));
    [reflexivity|].
  symmetry. apply idxmax_items_masked. split; [|assumption].
  eapply Qcle_trans; eassumption.
Qed.

Lemma primary_fuels_Forall2 (R : string -> string -> Prop) t t' fr :
  (forall r, In r (rows fr) ->
     R (label_or_unknown (idxmax (columns fr) (map (where_ge t') (snd r))))
       (label_or_unknown (idxmax (columns fr) (map (where_ge t) (snd r))))) ->
  Forall2 (fun o' o => pf_key o = pf_key o' /\ R (primary_fuel o') (primary_fuel o))
          (primary_fuels t' fr) (primary_fuels t fr).
Proof.
  unfold primary_fuels, map_cells. cbn [rows columns]. rewrite !map_map. cbn [fst snd].
  generalize (columns fr) as cols. intros cols.
  induction (rows fr) as [|[[[d p] b] ys] l IH]; intros H; [constructor|].
  cbn [map]. constructor.
  - split; [reflexivity|]. apply (H (d, p, b, ys)). left. reflexivity.
  - apply IH. intros r Hr. apply H. right. assumption.
Qed.

Lemma primary_fuels_In fuel_thresh fr o :
  In o (primary_fuels fuel_thresh fr) ->
  exists ys, In (pf_key o, ys) (rows fr)
             /\ primary_fuel o
                = label_or_unknown (idxmax (columns fr) (map (where_ge fuel_thresh) ys)).
Proof.
  unfold primary_fuels, map_cells. cbn [rows columns]. rewrite map_map. cbn [fst snd].
  rewrite in_map_iff. intros ([[[d p] b] ys] & <- & Hin). exists ys. auto.
Qed.

End Thresholds.

(** X9.  Lowering the threshold never changes a fuel already found: for
    [t <= t'], every row that the classifier labels with a fuel at
    threshold [t'] carries the same fuel at threshold [t]; only rows
    reported as ["unknown"] can change. *)
Theorem lower_threshold_keeps_primary_fuel (fr : frame Qc) (t t' : Qc)
    (out' : list primary_fuel_row) :
  t <= t' ->
  classify t' fr = Ok out' ->
  exists out,
    classify t fr = Ok out
    /\ Forall2 (fun o' o => pf_key o = pf_key o'
                            /\ (primary_fuel o' <> "unknown" ->
                                primary_fuel o = primary_fuel o'))
               out' out.
Proof.
  intros Htt Hcls. rewrite (classify_threshold t t' fr out' Hcls).
  apply classify_Ok in Hcls. subst out'. eexists. split; [reflexivity|].
  apply (primary_fuels_Forall2 (fun pf' pf => pf' <> "unknown" -> pf = pf')).
  intros r _.
  destruct (idxmax (columns fr) (map (where_ge t') (snd r))) as [c|] eqn:Ei; simpl.
  - intros _. rewrite (idxmax_lower _ _ _ _ _ Htt Ei). reflexivity.
  - intros H. contradiction.
Qed.

Lemma lower_threshold_keeps_primary_fuel_witness :
  let fr := table_of (snd (calculate_fuel_percentage two_boilers "boiler")) in
  classify (Q2Qc (9 # 10)) fr
  = Ok [mk_pf 1 (Some "B1") 1 "COAL"; mk_pf 1 (Some "B2") 1 "unknown"]
  /\ classify (Q2Qc (1 # 2)) fr
     = Ok [mk_pf 1 (Some "B1") 1 "COAL"; mk_pf 1 (Some "B2") 1 "GAS"]
  /\ exists out,
       classify (Q2Qc (1 # 2)) fr = Ok out
       /\ Forall2 (fun o' o => pf_key o = pf_key o'
                               /\ (primary_fuel o' <> "unknown" ->
                                   primary_fuel o = primary_fuel o'))
                  [mk_pf 1 (Some "B1") 1 "COAL"; mk_pf 1 (Some "B2") 1 "unknown"] out.
Proof.
  cbv zeta. split; [vm_compute; reflexivity|]. split; [vm_compute; reflexivity|].
  apply (lower_threshold_keeps_primary_fuel _ (Q2Qc (1 # 2)) (Q2Qc (9 # 10))).
  - unfold Qcle. vm_compute. discriminate.
  - vm_compute. reflexivity.
Defined.



(** ** Tables without heat *)

Section NoHeat.

Lemma Qc_sum_all_zero xs : (forall x, In x xs -> x = 0) -> Qc_sum xs = 0.
Proof.
  induction xs as [|x xs IH]; simpl; intros H; [reflexivity|].
  rewrite (H x (or_introl eq_refl)), IH; [ring|]. intros y Hy. apply H. right. assumption.
Qed.

Lemma dropna_no_heat xs :
  (forall c, In c xs -> no_heat c) -> forall x, In x (dropna xs) -> x = 0.
Proof.
  intros H x Hx. apply dropna_In in Hx. destruct (H _ Hx) as [E|E]; congruence.
Qed.

Lemma nansum_no_heat xs : (forall c, In c xs -> no_heat c) -> nansum xs = 0.
Proof. intros H. apply Qc_sum_all_zero, dropna_no_heat, H. Qed.

Lemma nanmean_no_heat xs : (forall c, In c xs -> no_heat c) -> no_heat (nanmean xs).
Proof.
  intros H. pose proof (dropna_no_heat xs H) as Hz. unfold nanmean.
  destruct (dropna xs) as [|v vs]; [left; reflexivity|].
  right. f_equal. rewrite (Qc_sum_all_zero (v :: vs) Hz). unfold Qcdiv. ring.
Qed.

Lemma level_cell_no_heat level rs k f :
  (forall r, In r rs -> no_heat (mmbtu r)) -> no_heat (level_cell level rs k f).
Proof.
  intros H.
  assert (Hg : forall key_of c, In c (group_heat key_of rs k f) -> no_heat c).
  { intros key_of c Hc. unfold group_heat in Hc. apply in_map_iff in Hc.
    destruct Hc as (r & <- & Hr). apply filter_In in Hr. apply H. tauto. }
  unfold level_cell. destruct (String.eqb level "boiler").
  - apply nanmean_no_heat. apply Hg.
  - destruct (existsb _ rs); [|left; reflexivity].
    right. f_equal. apply nansum_no_heat. apply Hg.
Qed.

End NoHeat.

(** X11.  When every record has heat 0 or no heat at all, a returned
    share table has no row, and [determine_primary_fuel] returns an empty
    table as well. *)
Theorem no_heat_gives_empty_table (bf_df : bf_frame) (level : string)
    (fuel_thresh : Qc) (fr : frame Qc) :
  (forall r, In r (bf_rows bf_df) -> mmbtu r = None \/ mmbtu r = Some 0) ->
  snd (calculate_fuel_percentage bf_df level) = Ok fr ->
  rows fr = []
  /\ snd (determine_primary_fuel bf_df fuel_thresh level) = Ok [].
Proof.
  intros Hzero Hok.
  assert (Hrows : rows fr = []).
  { destruct (rows fr) as [|[k ys] l] eqn:E; [reflexivity|]. exfalso.
    assert (Hin : In (k, ys) (rows fr)) by (rewrite E; left; reflexivity).
    destruct (share_table_rows _ _ _ _ _ Hok Hin) as (fp & _ & _ & _ & Hrow).
    cbv zeta in Hrow. destruct Hrow as (_ & Hnz & _). apply Hnz.
    apply nansum_no_heat. intros c Hc. apply in_map_iff in Hc.
    destruct Hc as (f & <- & _). apply level_cell_no_heat. exact Hzero. }
  split; [exact Hrows|].
  rewrite determine_primary_fuel_result, Hok.
  destruct (classify_cases fuel_thresh fr) as [E|(_ & _ & Hne)]; [|contradiction].
  rewrite E. unfold primary_fuels, map_cells. cbn [rows]. rewrite Hrows. reflexivity.
Qed.

Lemma no_heat_gives_empty_table_witness :
  let idle := table [rec 1 "B1" "COAL" 1 0 1;
                     mk_bf (Some 1%Z) (Some "B1") (Some "GAS") (Some 1%Z) None (num 1)] in
  let fr := table_of (snd (calculate_fuel_percentage idle "plant")) in
  columns fr = ["COAL"; "GAS"]
  /\ rows fr = []
  /\ snd (determine_primary_fuel idle (Q2Qc (9 # 10)) "plant") = Ok [].
Proof.
  cbv zeta. split; [vm_compute; reflexivity|].
  apply no_heat_gives_empty_table.
  - intros r [<-|[<-|[]]].
    + right. unfold mmbtu. simpl. f_equal; apply Qc_is_canon; reflexivity.
    + left. reflexivity.
  - vm_compute. reflexivity.
Defined.

(** ** One fuel above one half *)

Section Dominant.

Lemma get_item_In_cells {V} n cs (xs : list V) v : get_item n cs xs = Some v -> In v xs.
Proof. intros H. apply get_item_In in H. eapply in_combine_r. eassumption. Qed.

Lemma two_items_le_sum cs ys f g a b :
  f <> g -> (forall y, In y ys -> 0 <= y) ->
  get_item f cs ys = Some a -> get_item g cs ys = Some b ->
  a + b <= Qc_sum ys.
Proof.
  intros Hne. revert ys. induction cs as [|c cs IH]; intros [|y ys] Hnn Hf Hg;
    simpl in *; try discriminate.
  assert (Hnn' : forall z, In z ys -> 0 <= z) by (intros z Hz; apply Hnn; auto).
  destruct (String.eqb_spec c f) as [Ecf|Ecf]; destruct (String.eqb_spec c g) as [Ecg|Ecg].
  - congruence.
  - injection Hf as ->. apply Qcplus_le_compat; [apply Qcle_refl|].
    apply Qc_sum_ge; [assumption|]. eapply get_item_In_cells. eassumption.
  - injection Hg as ->. rewrite Qcplus_comm.
    apply Qcplus_le_compat; [apply Qcle_refl|].
    apply Qc_sum_ge; [assumption|]. eapply get_item_In_cells. eassumption.
  - replace (a + b) with (0 + (a + b)) by ring.
    apply Qcplus_le_compat; [apply Hnn; auto | apply IH; assumption].
Qed.

End Dominant.

(** X12.  When the heat of no record is negative and no fuel type code is
    ["total"], a threshold above one half is reached by at most one fuel
    of a row: the primary fuel cannot be a matter of tie-breaking. *)
Theorem at_most_one_fuel_above_half (bf_df : bf_frame) (level : string) (fr : frame Qc)
    (fuel_thresh : Qc) (k : index_key) (ys : list Qc) (f g : string) (a b : Qc) :
  snd (calculate_fuel_percentage bf_df level) = Ok fr ->
  (forall r, In r (bf_rows bf_df) -> nonneg (mmbtu r)) ->
  (forall r, In r (bf_rows bf_df) -> fuel_type_code r <> Some "total") ->
  1 < fuel_thresh + fuel_thresh ->
  In (k, ys) (rows fr) ->
  get_item f (columns fr) ys = Some a -> fuel_thresh <= a ->
  get_item g (columns fr) ys = Some b -> fuel_thresh <= b ->
  f = g.
Proof.
  intros Hok Hnn Htot Ht Hin Hf Ha Hg Hb.
  destruct (String.eqb_spec f g) as [E|Hne]; [exact E | exfalso].
  destruct (share_table_rows _ _ _ _ _ Hok Hin) as (fp & Hfp & Efr & _ & Hrow).
  cbv zeta in Hrow. destruct Hrow as (_ & Hnz & Eys).
  assert (Hcell : forall c, In c (map (level_cell level (bf_rows bf_df) k) (columns fp)) ->
                            nonneg c).
  { intros c Hc. apply in_map_iff in Hc. destruct Hc as (h & <- & _).
    apply level_cell_nonneg. assumption. }
  assert (Hsum : Qc_sum ys = 1).
  { rewrite Eys. apply share_row_sum; [|apply length_map|assumption].
    intros Hc. destruct (fuel_pivot_columns_fuel _ _ _ _ Hfp Hc) as (r & Hr & Hrf).
    exact (Htot r Hr Hrf). }
  assert (Hpos : forall y, In y ys -> 0 <= y).
  { intros y Hy. rewrite Eys in Hy. eapply share_row_unit; eassumption. }
  pose proof (two_items_le_sum _ _ _ _ _ _ Hne Hpos Hf Hg) as Hab.
  rewrite Hsum in Hab.
  apply (Qclt_not_le _ _ Ht). eapply Qcle_trans; [|exact Hab].
  apply Qcplus_le_compat; assumption.
Qed.

Lemma at_most_one_fuel_above_half_witness :
  let fr := table_of (snd (calculate_fuel_percentage two_boilers "boiler")) in
  (exists a, get_item "GAS" (columns fr) [Q2Qc (1 # 4); Q2Qc (3 # 4)] = Some a
             /\ Q2Qc (7 # 10) <= a)
  /\ forall g b,
       get_item g (columns fr) [Q2Qc (1 # 4); Q2Qc (3 # 4)] = Some b ->
       Q2Qc (7 # 10) <= b -> "GAS" = g.
Proof.
  cbv zeta. split.
  - eexists. split; [vm_compute; reflexivity|]. unfold Qcle. vm_compute. discriminate.
  - intros g b Hg Hb.
    apply (at_most_one_fuel_above_half two_boilers "boiler"
             (table_of (snd (calculate_fuel_percentage two_boilers "boiler")))
             (Q2Qc (7 # 10)) (1%Z, 1%Z, Some "B2") [Q2Qc (1 # 4); Q2Qc (3 # 4)]
             "GAS" g (Q2Qc (3 # 4)) b).
    + vm_compute. reflexivity.
    + intros r [<-|[<-|[<-|[]]]]; vm_compute; discriminate.
    + intros r [<-|[<-|[<-|[]]]]; discriminate.
    + unfold Qclt. vm_compute. reflexivity.
    + right. left. vm_compute. f_equal. f_equal; [|f_equal]; apply Qc_is_canon; reflexivity.
    + vm_compute. reflexivity.
    + unfold Qcle. vm_compute. discriminate.
    + exact Hg.
    + exact Hb.
Defined.

(** ** When the call raises *)

Lemma index_names_not_total level : ~ In "total" (index_names level).
Proof.
  unfold index_names. destruct (String.eqb level "boiler"); simpl;
    intros H; repeat (destruct H as [H|H]; [discriminate|]); exact H.
Qed.

(** X14.  [calculate_fuel_percentage] raises in two cases only: the
    level is neither ['boiler'] nor ['plant'] (the pivot is unbound), or
    the level is one of the two and a fuel type code with a cell in the
    pivot reads like one of the key columns of the level (the index
    cannot be reset).  Otherwise it returns a table. *)
Theorem calculate_raises_iff (bf_df : bf_frame) (level : string) (e : exn) :
  snd (calculate_fuel_percentage bf_df level) = Raise e <->
  (e = UnboundLocalError /\ level <> "boiler" /\ level <> "plant")
  \/ (e = ValueError
      /\ (level = "boiler" \/ level = "plant")
      /\ exists k c, In c (index_names level)
                     /\ level_cell level (bf_rows bf_df) k c <> None).
Proof.
  rewrite calculate_fuel_percentage_result. split.
  - destruct (fuel_pivot bf_df level) as [fp|] eqn:Hfp.
    + unfold reset_index.
      destruct (existsb _ (columns (share_frame fp))) eqn:E; [|discriminate].
      intros [= <-]. right. split; [reflexivity|]. split.
      * destruct (String.eqb_spec level "boiler") as [Hb|Hb]; [auto|].
        destruct (String.eqb_spec level "plant") as [Hp|Hp]; [auto|].
        rewrite (fuel_pivot_unbound _ _ Hb Hp) in Hfp. discriminate.
      * apply existsb_exists in E. destruct E as (c & Hc & Hn).
        apply existsb_eqb_In in Hn. unfold share_frame in Hc. cbn [columns] in Hc.
        apply drop_label_In in Hc. destruct Hc as [Hc _].
        apply (fuel_pivot_shape _ _ _ Hfp) in Hc. destruct Hc as [k Hk].
        exists k, c. auto.
    + intros [= <-]. left. split; [reflexivity|].
      split; intros ->; discriminate.
  - intros [(-> & Hb & Hp)|(-> & Hlevel & k & c & Hn & Hcell)].
    + rewrite (fuel_pivot_unbound _ _ Hb Hp). reflexivity.
    + destruct (fuel_pivot_level bf_df level Hlevel) as [fp Hfp]. rewrite Hfp.
      unfold reset_index.
      replace (existsb _ (columns (share_frame fp))) with true; [reflexivity|].
      symmetry. apply existsb_exists. exists c. split.
      * unfold share_frame. cbn [columns]. apply drop_label_In. split.
        -- apply (fuel_pivot_shape _ _ _ Hfp). exists k. assumption.
        -- intros ->. exact (index_names_not_total level Hn).
      * apply existsb_eqb_In. assumption.
Qed.

(** A fuel type code ["report_date"] makes the call raise. *)
Example fuel_named_like_a_key_raises :
  snd (calculate_fuel_percentage fuel_named_report_date "plant") = Raise ValueError
  /\ snd (determine_primary_fuel fuel_named_report_date (Q2Qc (9 # 10)) "plant")
     = Raise ValueError.
Proof. split; vm_compute; reflexivity. Qed.

(** ** The values of [primary_fuel] *)

(** X15.  Every [primary_fuel] that [determine_primary_fuel] returns is
    ["unknown"] or the fuel type code of a record of the table. *)
Theorem primary_fuel_is_observed_or_unknown (bf_df : bf_frame) (fuel_thresh : Qc)
    (level : string) (out : list primary_fuel_row) :
  snd (determine_primary_fuel bf_df fuel_thresh level) = Ok out ->
  forall o, In o out ->
    primary_fuel o = "unknown"
    \/ exists r, In r (bf_rows bf_df) /\ fuel_type_code r = Some (primary_fuel o).
Proof.
  rewrite determine_primary_fuel_result.
  destruct (snd (calculate_fuel_percentage bf_df level)) as [fr|e] eqn:Hok;
    [|discriminate].
  intros Hcls o Ho. apply classify_Ok in Hcls. subst out.
  apply primary_fuels_In in Ho. destruct Ho as (ys & Hin & ->).
  pose proof (idxmax_masked fuel_thresh (columns fr) ys) as Hidx.
  destruct (idxmax (columns fr) (map (where_ge fuel_thresh) ys)) as [pf|];
    [|left; reflexivity].
  right. simpl. destruct Hidx as (y & Hy & _). apply in_combine_l in Hy.
  apply calculate_fuel_percentage_Ok in Hok. destruct Hok as (fp & Hfp & _ & ->).
  unfold share_frame in Hy. cbn [columns] in Hy. apply drop_label_In in Hy.
  eapply fuel_pivot_columns_fuel; [eassumption | tauto].
Qed.

Lemma primary_fuel_is_observed_or_unknown_witness :
  snd (determine_primary_fuel two_boilers (Q2Qc (9 # 10)) "boiler")
  = Ok [mk_pf 1 (Some "B1") 1 "COAL"; mk_pf 1 (Some "B2") 1 "unknown"]
  /\ forall o, In o [mk_pf 1 (Some "B1") 1 "COAL"; mk_pf 1 (Some "B2") 1 "unknown"] ->
       primary_fuel o = "unknown"
       \/ exists r, In r (bf_rows two_boilers) /\ fuel_type_code r = Some (primary_fuel o).
Proof.
  split; [vm_compute; reflexivity|].
  apply (primary_fuel_is_observed_or_unknown two_boilers (Q2Qc (9 # 10)) "boiler").
  vm_compute. reflexivity.
Defined.
